(** * Gambler, EvolvableGambler and Anand: a shallow embedding

    The development follows [axelrod/strategies/gambler.py] and
    [axelrod/strategies/anand.py].

    Modelling choices.
    - Python [float] weights are rationals [Q]; the properties below depend
      on the order of the weights and on their positions only.  Python's
      [str] and [float] conversions of a weight are parameters of the
      serialization section.
    - Python [int] depths are [Z].
    - A pattern is a Python [list], a mutable object: patterns live in a
      store ([heap]) and an instance holds a reference ([loc]), so that two
      names for one list are two copies of one reference.
    - Random draws are inputs ([Draws]): the array of [np.random.random],
      the successive values of [random.uniform(-1, 1)], of [choice((C, D))]
      and the value of [random.randint].
    - Exceptions are the [Err] results of an error monad.
    - [lookerup.py], [action.py], [random_.py] and [memoryone.py] are not
      among the two files verified here; what is used of them is modelled
      from the specification and marked so. *)

From Stdlib Require Import QArith ZArith Lia String Ascii List.
From Stdlib Require Import DecimalString DecimalZ Lqa.
From stdpp Require Import gmap strings list fin_maps.

(** ** Actions *)

Inductive Action := C | D.

#[global] Instance Action_eq_dec : EqDecision Action.
Proof. solve_decision. Defined.

#[global] Instance Action_countable : Countable Action.
Proof.
  refine (inj_countable' (fun a => match a with C => true | D => false end)
                         (fun b : bool => if b then C else D) _).
  by intros [].
Defined.

(** ** Errors *)

Inductive Error :=
| ConfigurationError
| InsufficientSeedError
| KeyMismatchError
| DeserializationError
| TypeError.

Inductive result (A : Type) :=
| Ok (a : A)
| Err (e : Error).
Arguments Ok {A} a.
Arguments Err {A} e.

#[global] Instance result_ret : MRet result := fun A a => Ok a.
#[global] Instance result_bind : MBind result :=
  fun A B f m => match m with Ok a => f a | Err e => Err e end.

Definition of_option {A} (o : option A) (e : Error) : result A :=
  match o with Some a => Ok a | None => Err e end.

Fixpoint mapM_result {A B} (f : A -> result B) (l : list A) : result (list B) :=
  match l with
  | [] => Ok []
  | x :: l' => y ← f x; ys ← mapM_result f l'; Ok (y :: ys)
  end.

(** ** Weights *)

Definition Qltb (x y : Q) : bool := negb (Qle_bool y x).

Definition in01 (x : Q) : Prop := (0 <= x /\ x <= 1)%Q.

(** ** The key space

    Modelled from the spec: [create_lookup_table_keys] of [lookerup.py] is
    not in the sources.  Section 4.1: the keys are the triples of action
    sequences of the three depths, in the lexicographic product order, each
    sequence ordered lexicographically with Cooperate before Defect, the
    self window outermost, then the opponent window, then the opponent
    opening window; a depth of 0 contributes the empty sequence.  Section 7:
    negative depths are a ConfigurationError. *)

Abbreviation Key := (list Action * list Action * list Action)%type (only parsing).

Fixpoint action_sequences (n : nat) : list (list Action) :=
  match n with
  | O => [[]]
  | S n' => (cons C <$> action_sequences n') ++ (cons D <$> action_sequences n')
  end.

Abbreviation Plays := (Z * Z * Z)%type (only parsing).

Definition create_lookup_table_keys (plays : Plays) : result (list Key) :=
  let '(player_depth, op_depth, op_openings_depth) := plays in
  if ((0 <=? player_depth) && (0 <=? op_depth) && (0 <=? op_openings_depth))%Z
  then Ok (list_prod (list_prod (action_sequences (Z.to_nat player_depth))
                                (action_sequences (Z.to_nat op_depth)))
                     (action_sequences (Z.to_nat op_openings_depth)))
  else Err ConfigurationError.

(** ** Lookup tables

    Modelled from the spec: [LookupTable] of [lookerup.py] is not in the
    sources.  Section 4.2: [from_pattern] fails with a size mismatch when
    the pattern and the key space differ in length and otherwise maps the
    keys to the weights position by position; [get] fails when the key is
    not one of the table's. *)

Record LookupTable (V : Type) := mkLookupTable {
  dictionary : gmap Key V;
  player_depth : nat;
  op_depth : nat;
  op_openings_depth : nat
}.
Arguments mkLookupTable {V}.
Arguments dictionary {V}.
Arguments player_depth {V}.
Arguments op_depth {V}.
Arguments op_openings_depth {V}.

Definition from_pattern {V} (pattern : list V) (plays : Plays)
  : result (LookupTable V) :=
  keys ← create_lookup_table_keys plays;
  if decide (length keys = length pattern)
  then Ok (mkLookupTable (list_to_map (zip keys pattern))
             (Z.to_nat plays.1.1) (Z.to_nat plays.1.2) (Z.to_nat plays.2))
  else Err ConfigurationError.

Definition get {V} (t : LookupTable V) (k : Key) : result V :=
  of_option (dictionary t !! k) KeyMismatchError.

(** ** The store of patterns *)

Abbreviation loc := nat (only parsing).
Abbreviation heap := (list (list Q)) (only parsing).

Definition deref (h : heap) (l : loc) : list Q := default [] (h !! l).
Definition store (h : heap) (l : loc) (v : list Q) : heap := <[l := v]> h.
Definition alloc (h : heap) (v : list Q) : heap * loc := (h ++ [v], length h).

(** ** Random draws *)

Record Draws := mkDraws {
  randoms : nat -> Q;       (* np.random.random(n)[i] *)
  uniforms : nat -> Q;      (* k-th value of random.uniform(-1, 1) *)
  choices : nat -> Action;  (* k-th value of choice((C, D)) *)
  randint : nat             (* random.randint(0, n) *)
}.

(** ** [EvolvableGambler.mutate_pattern] *)

(** The body of the loop at one mutated index: lines 106 to 111. *)
Definition mutate_entry (x u : Q) : Q :=
  let ep := (u / 4)%Q in
  let x1 := (x + ep)%Q in
  let x2 := if Qltb x1 0 then 0%Q else x1 in
  if Qltb 1 x2 then 1%Q else x2.

Definition mutate_step (mutation_probability : Q) (d : Draws)
    (st : list Q * nat) (i : nat) : list Q * nat :=
  let '(pattern, k) := st in
  if Qltb (randoms d i) mutation_probability then
    match pattern !! i with
    | Some x => (<[i := mutate_entry x (uniforms d k)]> pattern, S k)
    | None => (pattern, S k)
    end
  else (pattern, k).

Definition mutate_loop (mutation_probability : Q) (d : Draws)
    (pattern : list Q) : list Q :=
  (foldl (mutate_step mutation_probability d) (pattern, O)
         (seq 0 (length pattern))).1.

(** The static method: the list at [pattern] is updated in the store and
    the same reference is returned.  A [None] probability makes the
    comparison of line 105 raise at the first index. *)
Definition mutate_pattern (d : Draws) (h : heap) (pattern : loc)
    (mutation_probability : option Q) : result (heap * loc) :=
  match mutation_probability with
  | Some p => Ok (store h pattern (mutate_loop p d (deref h pattern)), pattern)
  | None => match deref h pattern with
            | [] => Ok (h, pattern)
            | _ :: _ => Err TypeError
            end
  end.

(** ** The decision function

    Modelled from the spec: [LookerUp.strategy] of [lookerup.py] is not in
    the sources.  Section 4.3: the self and opponent windows are the most
    recent entries of the seed actions followed by the history; the opening
    window is the first entries of the opponent's history; the call fails
    with InsufficientSeed when the seed actions and the history together
    are shorter than the largest depth; the key of the three windows is
    looked up in the table. *)

Definition last_n {A} (n : nat) (l : list A) : list A :=
  drop (length l - n) l.

Definition LookerUp_strategy {V} (table : LookupTable V)
    (initial_actions own_history opponent_history : list Action) : result V :=
  let largest := Nat.max (player_depth table)
                    (Nat.max (op_depth table) (op_openings_depth table)) in
  if decide (length (initial_actions ++ own_history) < largest
             ∨ length (initial_actions ++ opponent_history) < largest)%nat
  then Err InsufficientSeedError
  else
    let player_last_n_plays :=
      last_n (player_depth table) (initial_actions ++ own_history) in
    let opponent_last_n_plays :=
      last_n (op_depth table) (initial_actions ++ opponent_history) in
    let opponent_initial_plays :=
      take (op_openings_depth table) opponent_history in
    get table (player_last_n_plays, opponent_last_n_plays,
               opponent_initial_plays).

(** Modelled from the spec: [random_choice] of [random_.py] is not in the
    sources.  Section 4.3, step 4: the weight is the probability of
    Cooperate, [u] is the uniform sample, Cooperate is returned when
    [u < weight]; a weight of exactly 1 always gives Cooperate and a weight
    of exactly 0 always gives Defect, whatever the sample. *)
Definition random_choice (p u : Q) : Action :=
  if Qeq_bool p 0 then D
  else if Qeq_bool p 1 then C
  else if Qltb u p then C else D.

(** ** [Gambler.strategy] *)

(** What a table of a [Gambler] holds: an [Action] or a [float]. *)
Inductive Reaction :=
| IsAction (a : Action)
| IsFloat (w : Q).

Definition Gambler_strategy (table : LookupTable Reaction)
    (initial_actions own_history opponent_history : list Action) (u : Q)
  : result Action :=
  actions_or_float ←
    LookerUp_strategy table initial_actions own_history opponent_history;
  match actions_or_float with
  | IsAction a => Ok a
  | IsFloat w => Ok (random_choice w u)
  end.

(** ** [Anand] *)

Module Anand.

Record state := mkState {
  four_vector : option (list Q);
  history : list Action
}.

(** Modelled from the spec: [MemoryOnePlayer.set_four_vector] of
    [memoryone.py] is not in the sources.  Section 4.5: the four weights
    are validated to lie in [0,1] and stored, in the order (C,C), (C,D),
    (D,C), (D,D). *)
Definition set_four_vector (self : state) (v : list Q) : result state :=
  if forallb (fun p => Qle_bool 0 p && Qle_bool p 1) v
  then Ok (mkState (Some v) (history self))
  else Err ConfigurationError.

Definition set_initial_four_vector (self : state) (v : option (list Q))
  : state := self.

Definition receive_match_attributes (self : state) : result state :=
  let p1 := 7 # 9 in
  let p2 := 0%Q in
  let p3 := 8 # 9 in
  let p4 := 0%Q in
  let four_vector := [p1; p2; p3; p4] in
  set_four_vector self four_vector.

(** The calls a match or a caller makes on an instance. *)
Inductive call :=
| SetInitialFourVector (v : option (list Q))
| ReceiveMatchAttributes.

Definition step (self : state) (c : call) : result state :=
  match c with
  | SetInitialFourVector v => Ok (set_initial_four_vector self v)
  | ReceiveMatchAttributes => receive_match_attributes self
  end.

Fixpoint run (self : state) (cs : list call) : result state :=
  match cs with
  | [] => Ok self
  | c :: cs' => self' ← step self c; run self' cs'
  end.

Definition is_receive (c : call) : bool :=
  match c with ReceiveMatchAttributes => true | _ => false end.

(** The weight looked up for one decision: the four-vector is the pattern
    of the depths (1, 1, 0). *)
Definition lookup_weight (self : state)
    (initial_actions own_history opponent_history : list Action) : result Q :=
  v ← of_option (four_vector self) ConfigurationError;
  table ← from_pattern v (1, 1, 0)%Z;
  LookerUp_strategy table initial_actions own_history opponent_history.

End Anand.

(** ** [EvolvableGambler] *)

Record EvolvableGambler := mkEvolvableGambler {
  parameters : Plays;
  pattern : loc;
  initial_actions : list Action;
  mutation_probability : option Q;
  _lookup : LookupTable Q
}.

(** Operations on the store that may raise: the store survives the
    exception. *)
Definition M (A : Type) : Type := heap -> heap * result A.

Definition retM {A} (a : A) : M A := fun h => (h, Ok a).
Definition bindM {A B} (m : M A) (f : A -> M B) : M B :=
  fun h => match m h with
           | (h', Ok a) => f a h'
           | (h', Err e) => (h', Err e)
           end.
Definition liftM {A} (r : result A) : M A := fun h => (h, r).

Notation "x <~ m ;; k" := (bindM m (fun x => k))
  (at level 100, m at next level, right associativity).

Definition max_depth (plays : Plays) : Z :=
  let '(plays, op_plays, op_start_plays) := plays in
  Z.max plays (Z.max op_plays op_start_plays).

Section EvolvableGambler.

(** What [EvolvableLookerUp.__init__] leaves in
    [self.mutation_probability], given the keyword argument and the
    parameters: its code is not in the sources and the specification is
    silent on it. *)
Variable init_mutation_probability : option Q -> Plays -> option Q.

(** Modelled from the spec: [EvolvableLookerUp.__init__] and
    [LookerUp.__init__] of [lookerup.py] are not in the sources.
    Sections 3 and 7: construction sets the parameters, the pattern and
    the seed actions, derives the table from the pattern, fails with a
    ConfigurationError when the pattern and the key space differ in
    length, and is invalid when the seed actions are shorter than the
    largest depth.  Line 72 of [gambler.py] then copies the pattern into
    a list of the instance's own. *)
Definition EvolvableGambler_init (pat : list Q) (params : Plays)
    (ia : list Action) (mp : option Q) : M EvolvableGambler :=
  table <~ liftM (from_pattern pat params) ;;
  if decide (max_depth params <= Z.of_nat (length ia))%Z
  then fun h =>
         let '(h', l) := alloc h pat in
         (h', Ok (mkEvolvableGambler params l ia
                    (init_mutation_probability mp params) table))
  else liftM (Err InsufficientSeedError).

(** [self.pattern = vector] is done before [from_pattern] may raise. *)
Definition receive_vector (h : heap) (self : EvolvableGambler) (vector : loc)
  : EvolvableGambler * result unit :=
  let self1 := mkEvolvableGambler (parameters self) vector
                 (initial_actions self) (mutation_probability self)
                 (_lookup self) in
  match from_pattern (deref h vector) (parameters self1) with
  | Ok table => (mkEvolvableGambler (parameters self1) (pattern self1)
                   (initial_actions self1) (mutation_probability self1) table,
                 Ok tt)
  | Err e => (self1, Err e)
  end.

Definition create_vector_bounds (h : heap) (self : EvolvableGambler)
  : list Q * list Q :=
  let size := length (deref h (pattern self)) in
  (replicate size 0%Q, replicate size 1%Q).

Definition mutate (d : Draws) (self : EvolvableGambler) : M EvolvableGambler :=
  pat <~ (fun h => match mutate_pattern d h (pattern self)
                           (mutation_probability self) with
                   | Ok (h', l) => (h', Ok l)
                   | Err e => (h, Err e)
                   end) ;;
  let num_actions := max_depth (parameters self) in
  let ia := choices d <$> seq 0 (Z.to_nat num_actions) in
  fun h => EvolvableGambler_init (deref h pat) (parameters self) ia
             (mutation_probability self) h.

Definition crossover (d : Draws) (self other : EvolvableGambler)
  : M EvolvableGambler :=
  fun h =>
    let pattern1 := deref h (pattern self) in
    let pattern2 := deref h (pattern other) in
    let cross_point := randint d in
    let offspring_pattern :=
      take cross_point pattern1 ++ drop cross_point pattern2 in
    EvolvableGambler_init offspring_pattern (parameters self)
      (initial_actions self) (mutation_probability self) h.

End EvolvableGambler.

(** ** Strings: [str.split], [str.join], [str] and [int] on integers *)

Fixpoint split (sep : ascii) (s : string) : list string :=
  match s with
  | EmptyString => [EmptyString]
  | String c s' =>
      if Ascii.eqb c sep then EmptyString :: split sep s'
      else match split sep s' with
           | hd :: tl => String c hd :: tl
           | [] => [String c EmptyString]
           end
  end.

Fixpoint join (sep : ascii) (l : list string) : string :=
  match l with
  | [] => EmptyString
  | [x] => x
  | x :: l' => (x ++ String sep (join sep l'))%string
  end.

Definition str_int (z : Z) : string := NilZero.string_of_int (Z.to_int z).

(** [int] on the decimal numerals that [str] produces (Python's [int] also
    accepts blanks, a plus sign and underscores). *)
Definition int_of_str (s : string) : result Z :=
  of_option (Z.of_int <$> NilZero.int_of_string s) DeserializationError.

(** Modelled from the spec: [actions_to_str] and [str_to_actions] of
    [action.py] are not in the sources.  Section 6: the seed actions are
    rendered as single letters, one per action, in history order; section 7:
    an invalid action letter is a DeserializationError. *)
Definition action_letter (a : Action) : ascii :=
  match a with C => "C"%char | D => "D"%char end.

Definition action_of_letter (c : ascii) : result Action :=
  if Ascii.eqb c "C" then Ok C
  else if Ascii.eqb c "D" then Ok D
  else Err DeserializationError.

Definition actions_to_str (actions : list Action) : string :=
  string_of_list_ascii (action_letter <$> actions).

Definition str_to_actions (s : string) : result (list Action) :=
  mapM_result action_of_letter (list_ascii_of_string s).

Fixpoint mem_char (c : ascii) (s : string) : bool :=
  match s with
  | EmptyString => false
  | String c' s' => Ascii.eqb c' c || mem_char c s'
  end.

Section Serialization.

Variable init_mutation_probability : option Q -> Plays -> option Q.

(** Python's [str] of a weight and [float] of a string ([None] when
    [float] raises). *)
Variable str_float : Q -> string.
Variable float_of_str : string -> option Q.

Definition serialize_parameters (h : heap) (self : EvolvableGambler) : string :=
  let '(self_depth, op_depth, op_openings_depth) := parameters self in
  (str_int self_depth ++ ":" ++
   str_int op_depth ++ ":" ++
   str_int op_openings_depth ++ ":" ++
   join "|" (str_float <$> deref h (pattern self)) ++ ":" ++
   actions_to_str (initial_actions self))%string.

(** The keyword arguments that [deserialize_parameters] passes to the
    class: lines 158 to 161.  No [mutation_probability] is among them. *)
Record init_kwargs := mkKwargs {
  kw_parameters : Plays;
  kw_pattern : list Q;
  kw_initial_actions : list Action;
  kw_mutation_probability : option Q
}.

Definition deserialize_kwargs (serialized : string) : result init_kwargs :=
  let s := split ":" serialized in
  ints ← mapM_result int_of_str (take 3 s);
  s3 ← of_option (s !! 3%nat) DeserializationError;
  pat ← mapM_result
          (fun w => of_option (float_of_str w) DeserializationError)
          (split "|" s3);
  s4 ← of_option (s !! 4%nat) DeserializationError;
  ia ← str_to_actions s4;
  match ints with
  | [a; b; c] => Ok (mkKwargs (a, b, c) pat ia None)
  | _ => Err DeserializationError
  end.

Definition deserialize_parameters (serialized : string) : M EvolvableGambler :=
  kw <~ liftM (deserialize_kwargs serialized) ;;
  EvolvableGambler_init init_mutation_probability (kw_pattern kw)
    (kw_parameters kw) (kw_initial_actions kw) (kw_mutation_probability kw).

End Serialization.

(** What the serialization relies on from Python's conversions of a weight
    [v]: [float(str(v))] is [v], and [str(v)] holds neither of the two
    separators. *)
Definition float_repr_ok (str_float : Q -> string)
    (float_of_str : string -> option Q) (v : Q) : Prop :=
  float_of_str (str_float v) = Some v /\
  mem_char ":" (str_float v) = false /\
  mem_char "|" (str_float v) = false.

(** ** Instances in a store *)

(** An instance as construction leaves it, as far as the operations below
    depend on it: its pattern is allocated and as long as the key space of
    its parameters, and its seed actions cover the largest depth. *)
Definition well_formed (h : heap) (self : EvolvableGambler) : Prop :=
  (pattern self < length h)%nat /\
  (exists keys, create_lookup_table_keys (parameters self) = Ok keys /\
                length keys = length (deref h (pattern self))) /\
  (max_depth (parameters self) <= Z.of_nat (length (initial_actions self)))%Z.

(** The draws are in the ranges of the generators: [np.random.random] is
    in [0, 1), [random.uniform(-1, 1)] in [-1, 1]. *)
Definition draws_in_range (d : Draws) : Prop :=
  (forall i, (0 <= randoms d i)%Q /\ (randoms d i < 1)%Q) /\
  (forall k, (-1 <= uniforms d k)%Q /\ (uniforms d k <= 1)%Q).

(** ** Sample stores, instances and draws *)

(** One value of the parameter [init_mutation_probability], to instantiate
    statements that hold for every value of it: the keyword argument kept
    as it is.  It is not the constructor of the library, which is
    [default_mutation_probability] below. *)
Definition keep_mutation_probability (mp : option Q) (_ : Plays) : option Q := mp.

Definition sample_table (pat : list Q) : LookupTable Q :=
  mkLookupTable
    (list_to_map (zip [([C], [C], []); ([C], [D], []);
                       ([D], [C], []); ([D], [D], [])] pat))
    1 1 0.

Definition sample_pattern : list Q := [1 # 2; 1 # 2; 1 # 2; 1 # 2].

Definition sample_heap : list (list Q) := [sample_pattern].

Definition sample_gambler (mp : option Q) : EvolvableGambler :=
  mkEvolvableGambler (1, 1, 0)%Z 0 [C] mp (sample_table sample_pattern).

(** Every entry is drawn for mutation and moved by (1/2)/4. *)
Definition sample_draws : Draws :=
  mkDraws (fun _ => 0%Q) (fun _ => 1 # 2) (fun _ => D) 2.

(** A table of a [Gambler] that holds weights and an action, for the depths
    (1, 1, 0). *)
Definition sample_reactions : list Reaction :=
  [IsFloat 1%Q; IsFloat 0%Q; IsAction D; IsFloat (1 # 2)].

Definition sample_reaction_table : LookupTable Reaction :=
  mkLookupTable
    (list_to_map (zip [([C], [C], []); ([C], [D], []);
                       ([D], [C], []); ([D], [D], [])] sample_reactions))
    1 1 0.

(** Conversions of the weights 0.5, 0.0 and 1.0, for the examples. *)
Definition sample_str_float (v : Q) : string :=
  if Qeq_bool v (1 # 2) then "0.5"
  else if Qeq_bool v 0 then "0.0"
  else if Qeq_bool v 1 then "1.0"
  else "nan".

Definition sample_float_of_str (s : string) : option Q :=
  if String.eqb s "0.5" then Some (1 # 2)
  else if String.eqb s "0.0" then Some 0%Q
  else if String.eqb s "1.0" then Some 1%Q
  else None.

(** ** The loop of [mutate_pattern], index by index *)

(** The number of indices below [i] that are drawn for mutation: the number
    of calls of [random.uniform] made before index [i]. *)
Fixpoint selected_before (p : Q) (d : Draws) (i : nat) : nat :=
  match i with
  | O => O
  | S j => selected_before p d j + (if Qltb (randoms d j) p then 1 else 0)
  end.

(** The weight at index [i] after the loop, from the weight [x] before. *)
Definition mutated_entry (p : Q) (d : Draws) (i : nat) (x : Q) : Q :=
  if Qltb (randoms d i) p
  then mutate_entry x (uniforms d (selected_before p d i))
  else x.

(** ** [EvolvableGambler.random_params] *)

(** [dict(pairs)]: a later pair overrides an earlier one with its key. *)
Definition dict {V} (pairs : list (Key * V)) : gmap Key V :=
  foldl (fun m kv => <[kv.1 := kv.2]> m) ∅ pairs.

(** [random] gives the successive values of [random.random()].  The
    constructor [LookupTable(table)] of [lookerup.py] is not in the sources:
    modelled from the spec, section 4.2, it keeps the mapping it is given,
    with the depths of its keys. *)
Definition random_params (random : nat -> Q) (plays : Plays)
  : result (list Q * LookupTable Q) :=
  keys ← create_lookup_table_keys plays;
  let pattern := random <$> seq 0 (length keys) in
  let table := dict (zip keys pattern) in
  Ok (pattern,
      mkLookupTable table
        (Z.to_nat plays.1.1) (Z.to_nat plays.1.2) (Z.to_nat plays.2)).

(** A second parent for [crossover], and the store that holds both. *)
Definition sample_other_pattern : list Q := [1%Q; 0%Q; 1%Q; 0%Q].

Definition sample_heap2 : list (list Q) := [sample_pattern; sample_other_pattern].

Definition sample_other : EvolvableGambler :=
  mkEvolvableGambler (1, 1, 0)%Z 1 [D] None (sample_table sample_other_pattern).

(** ** The mutation probability an instance is built with *)



(** * Properties *)

(** ** Order on the weights *)

Lemma Qltb_lt x y : Qltb x y = true <-> (x < y)%Q.
Proof.
  unfold Qltb. rewrite negb_true_iff.
  split; intros H.
  - apply Qnot_le_lt. intros Hle. apply Qle_bool_iff in Hle. congruence.
  - destruct (Qle_bool y x) eqn:E; [|done].
    apply Qle_bool_iff in E. exfalso. by apply (Qlt_not_le x y).
Qed.

Lemma Qltb_ge x y : Qltb x y = false <-> (y <= x)%Q.
Proof.
  unfold Qltb. rewrite negb_false_iff. apply Qle_bool_iff.
Qed.

(** ** The store *)

Lemma deref_store h l v :
  deref (store h l v) l = if decide (l < length h)%nat then v else [].
Proof.
  unfold deref, store. case_decide as Hl.
  - by rewrite list_lookup_insert_eq.
  - rewrite list_insert_ge by lia. rewrite lookup_ge_None_2 by lia. done.
Qed.

Lemma deref_store_ne h l l' v : l ≠ l' -> deref (store h l v) l' = deref h l'.
Proof. intros Hne. unfold deref, store. by rewrite list_lookup_insert_ne. Qed.

Lemma deref_alloc_new h v : deref (alloc h v).1 (alloc h v).2 = v.
Proof.
  unfold deref, alloc. simpl.
  rewrite lookup_app_r by lia. by rewrite Nat.sub_diag.
Qed.

Lemma deref_alloc_old h v l :
  (l < length h)%nat -> deref (alloc h v).1 l = deref h l.
Proof. intros Hl. unfold deref, alloc. simpl. by rewrite lookup_app_l. Qed.

Lemma length_store h l v : length (store h l v) = length h.
Proof. unfold store. apply length_insert. Qed.

(** ** [mutate_pattern]: the loop *)

Lemma mutate_entry_in01 x u : in01 (mutate_entry x u).
Proof.
  unfold mutate_entry, in01.
  destruct (Qltb (x + u / 4) 0) eqn:E0.
  - replace (Qltb 1 0) with false by reflexivity. split; [apply Qle_refl | done].
  - apply Qltb_ge in E0.
    destruct (Qltb 1 (x + u / 4)) eqn:E1.
    + split; [done | apply Qle_refl].
    + apply Qltb_ge in E1. done.
Qed.

Lemma foldl_inv {A B} (P : A -> Prop) (f : A -> B -> A) (l : list B) (a : A) :
  (forall a b, P a -> P (f a b)) -> P a -> P (foldl f a l).
Proof.
  intros Hf. revert a. induction l as [|b l IH]; simpl; auto.
Qed.

Lemma mutate_step_in01 p d st i :
  Forall in01 st.1 -> Forall in01 (mutate_step p d st i).1.
Proof.
  destruct st as [pat k]. simpl. intros H.
  destruct (Qltb (randoms d i) p); [|done].
  destruct (pat !! i) eqn:E; simpl; [|done].
  apply Forall_insert; [done | apply mutate_entry_in01].
Qed.

Lemma mutate_loop_in01 p d pat :
  Forall in01 pat -> Forall in01 (mutate_loop p d pat).
Proof.
  intros H. unfold mutate_loop.
  apply (foldl_inv (fun st => Forall in01 st.1)); [|done].
  intros st i. apply mutate_step_in01.
Qed.

Lemma mutate_step_length p d st i :
  length (mutate_step p d st i).1 = length st.1.
Proof.
  destruct st as [pat k]. simpl.
  destruct (Qltb (randoms d i) p); [|done].
  destruct (pat !! i); simpl; [|done]. apply length_insert.
Qed.

Lemma mutate_loop_length p d pat : length (mutate_loop p d pat) = length pat.
Proof.
  unfold mutate_loop.
  apply (foldl_inv (fun st => length st.1 = length pat)); [|done].
  intros st i Hst. by rewrite mutate_step_length.
Qed.

(** No entry is touched when no draw is below the probability. *)
Lemma mutate_loop_untouched p d pat :
  (forall i, (p <= randoms d i)%Q) -> mutate_loop p d pat = pat.
Proof.
  intros Hp. unfold mutate_loop.
  apply (foldl_inv (fun st => st.1 = pat)); [|done].
  intros [pat' k] i Hst. simpl in *.
  replace (Qltb (randoms d i) p) with false; [done|].
  symmetry. by apply Qltb_ge.
Qed.

(** C6. Whatever the mutation probability and the draws, a pattern with
    entries in [0,1] leaves [mutate_pattern] with entries in [0,1]: the call
    returns, and every entry of the list it returns lies in [0,1]. *)
Theorem mutate_pattern_unit_interval d h pattern p :
  Forall in01 (deref h pattern) ->
  exists h', mutate_pattern d h pattern (Some p) = Ok (h', pattern) /\
             Forall in01 (deref h' pattern).
Proof.
  intros H. eexists. split; [reflexivity|].
  rewrite deref_store. case_decide; [|constructor].
  by apply mutate_loop_in01.
Qed.

(** A pattern at the upper bound, pushed above it before the clamp. *)
Lemma mutate_pattern_unit_interval_witness :
  Forall in01 (deref [[1%Q; 0%Q; 1 # 2]] 0) /\
  exists h', mutate_pattern sample_draws [[1%Q; 0%Q; 1 # 2]] 0 (Some 1%Q)
             = Ok (h', 0%nat) /\
             Forall in01 (deref h' 0).
Proof.
  assert (H : Forall in01 (deref [[1%Q; 0%Q; 1 # 2]] 0)).
  { unfold deref, in01, Qle. simpl. repeat constructor; simpl; lia. }
  split; [exact H|].
  exact (mutate_pattern_unit_interval sample_draws [[1%Q; 0%Q; 1 # 2]] 0 1%Q H).
Defined.

(** ** The constructor *)

Lemma max_depth_to_nat plays :
  (max_depth plays <= Z.of_nat (Z.to_nat (max_depth plays)))%Z.
Proof. lia. Qed.

Section Construction.

Variable imp : option Q -> Plays -> option Q.

Lemma EvolvableGambler_init_ok pat params ia mp h keys :
  create_lookup_table_keys params = Ok keys ->
  length keys = length pat ->
  (max_depth params <= Z.of_nat (length ia))%Z ->
  exists table,
    from_pattern pat params = Ok table /\
    EvolvableGambler_init imp pat params ia mp h
    = (h ++ [pat],
       Ok (mkEvolvableGambler params (length h) ia (imp mp params) table)).
Proof.
  intros Hk Hlen Hia.
  unfold EvolvableGambler_init, bindM, liftM, from_pattern.
  rewrite Hk. simpl.
  rewrite decide_True by done.
  eexists. split; [reflexivity|].
  by rewrite decide_True by done.
Qed.

(** What a call of [mutate] does to the store and what it returns. *)
Lemma mutate_run d h self p :
  well_formed h self ->
  mutation_probability self = Some p ->
  let pat' := mutate_loop p d (deref h (pattern self)) in
  exists table,
    mutate imp d self h
    = (store h (pattern self) pat' ++ [pat'],
       Ok (mkEvolvableGambler (parameters self) (length h)
             (choices d <$> seq 0 (Z.to_nat (max_depth (parameters self))))
             (imp (Some p) (parameters self)) table)).
Proof.
  intros (Hl & (keys & Hk & Hlen) & _) Hp pat'.
  unfold mutate, bindM, mutate_pattern. rewrite Hp.
  rewrite deref_store, decide_True by done.
  fold pat'.
  destruct (EvolvableGambler_init_ok pat' (parameters self)
              (choices d <$> seq 0 (Z.to_nat (max_depth (parameters self))))
              (Some p) (store h (pattern self) pat') keys) as (t & _ & Ht).
  - done.
  - unfold pat'. by rewrite mutate_loop_length.
  - rewrite length_fmap, length_seq. apply max_depth_to_nat.
  - exists t. rewrite Ht. by rewrite length_store.
Qed.

(** The list of the caller and the list of the new instance hold the same
    weights after [mutate]: the caller's list is the one the loop wrote. *)
Lemma mutate_writes_caller d h self p :
  well_formed h self ->
  mutation_probability self = Some p ->
  exists h' new,
    mutate imp d self h = (h', Ok new) /\
    pattern new ≠ pattern self /\
    deref h' (pattern self) = mutate_loop p d (deref h (pattern self)) /\
    deref h' (pattern new) = deref h' (pattern self).
Proof.
  intros Hwf Hp.
  destruct (mutate_run d h self p Hwf Hp) as (t & Ht).
  destruct Hwf as (Hl & _).
  eexists _, _. split; [exact Ht|]. simpl.
  split; [lia|].
  assert (Hnew : forall v, deref (store h (pattern self) v ++ [v]) (length h) = v).
  { intros v. unfold deref.
    rewrite lookup_app_r by (rewrite length_store; lia).
    rewrite length_store, Nat.sub_diag. done. }
  assert (Hold : forall v, deref (store h (pattern self) v ++ [v]) (pattern self) = v).
  { intros v. unfold deref.
    rewrite lookup_app_l by (rewrite length_store; lia).
    fold (deref (store h (pattern self) v) (pattern self)).
    by rewrite deref_store, decide_True. }
  by rewrite Hnew, Hold.
Qed.

(** C7. With a mutation probability of 0, [mutate] returns an instance
    whose pattern is the caller's pattern, entry for entry, with the same
    parameters and with seed actions drawn anew, as many as the largest
    of the three depths. *)
Theorem mutate_zero_probability d h self p :
  well_formed h self ->
  mutation_probability self = Some p ->
  (p == 0)%Q ->
  draws_in_range d ->
  exists h' new,
    mutate imp d self h = (h', Ok new) /\
    deref h' (pattern new) = deref h (pattern self) /\
    parameters new = parameters self /\
    initial_actions new
    = choices d <$> seq 0 (Z.to_nat (max_depth (parameters self))) /\
    length (initial_actions new) = Z.to_nat (max_depth (parameters self)).
Proof.
  intros Hwf Hp H0 [Hr _].
  destruct (mutate_writes_caller d h self p Hwf Hp) as (h' & new & Hm & _ & Hc & Hn).
  destruct (mutate_run d h self p Hwf Hp) as (t & Ht).
  rewrite Ht in Hm. injection Hm as <- <-.
  eexists _, _. split; [exact Ht|]. simpl in *.
  rewrite Hn, Hc.
  split; [|split; [done|split; [done|by rewrite length_fmap, length_seq]]].
  apply mutate_loop_untouched. intros i. rewrite H0. apply Hr.
Qed.

End Construction.

Lemma mutate_zero_probability_witness :
  well_formed sample_heap (sample_gambler (Some 0%Q)) /\
  mutation_probability (sample_gambler (Some 0%Q)) = Some 0%Q /\
  (0 == 0)%Q /\
  draws_in_range sample_draws /\
  exists h' new,
    mutate keep_mutation_probability sample_draws (sample_gambler (Some 0%Q))
      sample_heap = (h', Ok new) /\
    deref h' (pattern new) = deref sample_heap (pattern (sample_gambler (Some 0%Q))) /\
    parameters new = parameters (sample_gambler (Some 0%Q)) /\
    initial_actions new
    = choices sample_draws <$>
        seq 0 (Z.to_nat (max_depth (parameters (sample_gambler (Some 0%Q))))) /\
    length (initial_actions new)
    = Z.to_nat (max_depth (parameters (sample_gambler (Some 0%Q)))).
Proof.
  assert (Hwf : well_formed sample_heap (sample_gambler (Some 0%Q))).
  { unfold well_formed. simpl. split; [lia|]. split; [|lia].
    eexists. split; reflexivity. }
  assert (Hmp : mutation_probability (sample_gambler (Some 0%Q)) = Some 0%Q)
    by reflexivity.
  assert (H0 : (0 == 0)%Q) by reflexivity.
  assert (Hd : draws_in_range sample_draws).
  { unfold draws_in_range, Qle, Qlt. simpl. split; intros _; lia. }
  repeat (split; [assumption|]).
  exact (mutate_zero_probability keep_mutation_probability sample_draws
           sample_heap (sample_gambler (Some 0%Q)) 0%Q Hwf Hmp H0 Hd).
Defined.

(** C1, at a concrete input.  The instance holds the pattern
    [0.5, 0.5, 0.5, 0.5] and the mutation probability 1; every entry is
    drawn and moved by 0.125.  After [mutate] has returned the new
    instance, the list of the instance it was called on holds 0.625 at
    every position: the caller's pattern was overwritten. *)
Theorem mutate_overwrites_caller_pattern :
  let self := sample_gambler (Some 1%Q) in
  exists h' new,
    mutate keep_mutation_probability sample_draws self sample_heap
    = (h', Ok new) /\
    pattern new ≠ pattern self /\
    deref sample_heap (pattern self) = [1 # 2; 1 # 2; 1 # 2; 1 # 2] /\
    Forall2 Qeq (deref h' (pattern self)) [5 # 8; 5 # 8; 5 # 8; 5 # 8] /\
    deref h' (pattern self) ≠ deref sample_heap (pattern self).
Proof.
  intros self.
  assert (Hwf : well_formed sample_heap self).
  { unfold well_formed. simpl. split; [lia|]. split; [|lia].
    eexists. split; reflexivity. }
  destruct (mutate_writes_caller keep_mutation_probability sample_draws
              sample_heap self 1%Q Hwf eq_refl) as (h' & new & Hm & Hne & Hc & _).
  exists h', new. split; [exact Hm|]. split; [exact Hne|].
  split; [reflexivity|].
  rewrite Hc.
  replace (mutate_loop 1 sample_draws (deref sample_heap (pattern self)))
    with [10 # 16; 10 # 16; 10 # 16; 10 # 16] by (vm_compute; reflexivity).
  split; [repeat constructor|].
  intros Heq. vm_compute in Heq. discriminate Heq.
Qed.

(** ** [crossover] *)

Section Crossover.

Variable imp : option Q -> Plays -> option Q.

(** C8. [self.crossover(self)] returns an offspring whose pattern is the
    pattern of [self], entry for entry, whatever the split point, and so
    for every split point from 0 to the length of the pattern; the
    offspring has a list of its own and the list of [self] is as it
    was. *)
Theorem crossover_self d h self :
  well_formed h self ->
  exists h' offspring,
    crossover imp d self self h = (h', Ok offspring) /\
    deref h' (pattern offspring) = deref h (pattern self) /\
    pattern offspring ≠ pattern self /\
    deref h' (pattern self) = deref h (pattern self) /\
    parameters offspring = parameters self /\
    initial_actions offspring = initial_actions self.
Proof.
  intros (Hl & (keys & Hk & Hlen) & Hia).
  unfold crossover. rewrite take_drop.
  destruct (EvolvableGambler_init_ok imp (deref h (pattern self))
              (parameters self) (initial_actions self)
              (mutation_probability self) h keys Hk Hlen Hia) as (t & _ & Ht).
  rewrite Ht. eexists _, _. split; [reflexivity|]. simpl.
  split; [apply (deref_alloc_new h)|].
  split; [lia|].
  split; [by apply (deref_alloc_old h)|done].
Qed.

End Crossover.

Lemma crossover_self_witness :
  well_formed sample_heap (sample_gambler None) /\
  exists h' offspring,
    crossover keep_mutation_probability sample_draws
      (sample_gambler None) (sample_gambler None) sample_heap
    = (h', Ok offspring) /\
    deref h' (pattern offspring) = deref sample_heap (pattern (sample_gambler None)) /\
    pattern offspring ≠ pattern (sample_gambler None) /\
    deref h' (pattern (sample_gambler None))
    = deref sample_heap (pattern (sample_gambler None)) /\
    parameters offspring = parameters (sample_gambler None) /\
    initial_actions offspring = initial_actions (sample_gambler None).
Proof.
  assert (Hwf : well_formed sample_heap (sample_gambler None)).
  { unfold well_formed. simpl. split; [lia|]. split; [|lia].
    eexists. split; reflexivity. }
  split; [exact Hwf|].
  exact (crossover_self keep_mutation_probability sample_draws sample_heap
           (sample_gambler None) Hwf).
Defined.

(** ** The key space and the tables *)

Lemma length_action_sequences n : length (action_sequences n) = (2 ^ n)%nat.
Proof.
  induction n as [|n IH]; [done|].
  simpl. rewrite length_app, !length_fmap, IH. lia.
Qed.

Lemma action_sequences_length n s : s ∈ action_sequences n -> length s = n.
Proof.
  revert s. induction n as [|n IH]; intros s; simpl.
  - intros ->%list_elem_of_singleton. done.
  - rewrite elem_of_app, !list_elem_of_fmap.
    intros [(t & -> & Ht)|(t & -> & Ht)]; simpl; f_equal; by apply IH.
Qed.

Lemma NoDup_action_sequences n : NoDup (action_sequences n).
Proof.
  induction n as [|n IH]; simpl.
  - apply NoDup_singleton.
  - apply NoDup_app. split; [|split].
    + apply NoDup_fmap_2; [|done]. by intros ?? [=].
    + intros s. rewrite !list_elem_of_fmap.
      intros (t & -> & _) (t' & [=] & _).
    + apply NoDup_fmap_2; [|done]. by intros ?? [=].
Qed.

Lemma NoDup_list_prod {A B} (l : list A) (l' : list B) :
  NoDup l -> NoDup l' -> NoDup (list_prod l l').
Proof.
  intros Hl Hl'. induction Hl as [|a l Ha Hl IH]; simpl; [constructor|].
  apply NoDup_app. split; [|split; [|done]].
  - change (NoDup (pair a <$> l')). apply NoDup_fmap_2; [|done]. by intros ?? [=].
  - intros [x y]. change (map (λ y0 : B, (a, y0)) l') with (pair a <$> l').
    rewrite list_elem_of_fmap. intros (y' & [= -> ->] & _).
    rewrite list_elem_of_In, in_prod_iff, <- list_elem_of_In. tauto.
Qed.

Lemma create_lookup_table_keys_NoDup plays keys :
  create_lookup_table_keys plays = Ok keys -> NoDup keys.
Proof.
  destruct plays as [[a b] c]. unfold create_lookup_table_keys.
  destruct (_ && _); [|done]. intros [= <-].
  repeat apply NoDup_list_prod; apply NoDup_action_sequences.
Qed.

(** The size of the key space: section 8 of the specification. *)
Lemma create_lookup_table_keys_length a b c keys :
  create_lookup_table_keys (a, b, c) = Ok keys ->
  length keys = (2 ^ Z.to_nat a * 2 ^ Z.to_nat b * 2 ^ Z.to_nat c)%nat.
Proof.
  unfold create_lookup_table_keys.
  destruct (_ && _); [|done]. intros [= <-].
  by rewrite !length_prod, !length_action_sequences.
Qed.

(** A table built from a pattern gives, at the i-th key, the i-th weight. *)
Lemma from_pattern_get {V} (pat : list V) plays keys table i k v :
  create_lookup_table_keys plays = Ok keys ->
  from_pattern pat plays = Ok table ->
  keys !! i = Some k ->
  pat !! i = Some v ->
  get table k = Ok v.
Proof.
  intros Hk Ht Hi Hv. unfold from_pattern in Ht. rewrite Hk in Ht. simpl in Ht.
  case_decide as Hlen; [|done]. injection Ht as <-.
  unfold get. simpl.
  erewrite elem_of_list_to_map_1; [done| |].
  - rewrite fst_zip by lia. by eapply create_lookup_table_keys_NoDup.
  - eapply list_elem_of_lookup_2. by apply lookup_zip_Some.
Qed.

(** ** [receive_vector] *)

(** C2. A vector whose length is not the size of the key space of the
    instance's parameters makes [receive_vector] fail with a
    ConfigurationError; a vector of that length becomes the pattern, and
    the table is rebuilt from it: at every key it holds the weight of the
    vector at the position of the key. *)
Theorem receive_vector_size_check h self vector keys :
  create_lookup_table_keys (parameters self) = Ok keys ->
  (length (deref h vector) ≠ length keys ->
     (receive_vector h self vector).2 = Err ConfigurationError) /\
  (length (deref h vector) = length keys ->
     exists table,
       from_pattern (deref h vector) (parameters self) = Ok table /\
       receive_vector h self vector
       = (mkEvolvableGambler (parameters self) vector (initial_actions self)
            (mutation_probability self) table, Ok tt) /\
       forall i k v,
         keys !! i = Some k -> deref h vector !! i = Some v -> get table k = Ok v).
Proof.
  intros Hk. split; intros Hlen.
  - unfold receive_vector, from_pattern. simpl. rewrite Hk. simpl.
    by rewrite decide_False by congruence.
  - assert (Ht : exists table, from_pattern (deref h vector) (parameters self) = Ok table).
    { unfold from_pattern. rewrite Hk. simpl.
      rewrite decide_True by congruence. eauto. }
    destruct Ht as [table Ht]. exists table. split; [done|]. split.
    + unfold receive_vector. simpl. by rewrite Ht.
    + intros i k v. by apply (from_pattern_get _ (parameters self) keys).
Qed.

Lemma receive_vector_size_check_witness :
  create_lookup_table_keys (parameters (sample_gambler None))
  = Ok [([C], [C], []); ([C], [D], []); ([D], [C], []); ([D], [D], [])] /\
  (receive_vector [sample_pattern; [1%Q; 0%Q]] (sample_gambler None) 1).2
  = Err ConfigurationError /\
  exists table,
    receive_vector [sample_pattern; [1%Q; 0%Q]] (sample_gambler None) 0
    = (mkEvolvableGambler (1, 1, 0)%Z 0 [C] None table, Ok tt).
Proof.
  assert (Hk : create_lookup_table_keys (parameters (sample_gambler None))
    = Ok [([C], [C], []); ([C], [D], []); ([D], [C], []); ([D], [D], [])])
    by reflexivity.
  split; [exact Hk|]. split.
  - apply (receive_vector_size_check [sample_pattern; [1%Q; 0%Q]]
             (sample_gambler None) 1 _ Hk). simpl. lia.
  - destruct (proj2 (receive_vector_size_check [sample_pattern; [1%Q; 0%Q]]
             (sample_gambler None) 0 _ Hk) eq_refl) as (table & _ & Hr & _).
    exists table. exact Hr.
Defined.

(** When [receive_vector] fails, the assignment of line 90 has been done:
    the instance holds the new vector and the table of the old pattern. *)
Lemma receive_vector_failure_state h self vector e :
  (receive_vector h self vector).2 = Err e ->
  pattern (receive_vector h self vector).1 = vector /\
  _lookup (receive_vector h self vector).1 = _lookup self.
Proof.
  unfold receive_vector. simpl.
  destruct (from_pattern (deref h vector) (parameters self)); simpl; [done|].
  done.
Qed.

(** ** The decision function *)

Lemma last_n_snoc {A} (l : list A) (x : A) : last_n 1 (l ++ [x]) = [x].
Proof.
  unfold last_n. rewrite length_app. simpl.
  replace (length l + 1 - 1)%nat with (length l) by lia.
  by rewrite drop_app_length.
Qed.

(** With the depths (1, 1, 0) the key is made of the last action of each
    player. *)
Lemma LookerUp_strategy_memory_one {V} (table : LookupTable V) ia own opp a b :
  player_depth table = 1%nat ->
  op_depth table = 1%nat ->
  op_openings_depth table = 0%nat ->
  LookerUp_strategy table ia (own ++ [a]) (opp ++ [b]) = get table ([a], [b], []).
Proof.
  intros H1 H2 H3. unfold LookerUp_strategy. rewrite H1, H2, H3. simpl.
  rewrite decide_False by (rewrite !length_app; simpl; lia).
  by rewrite !(assoc_L (++)), !last_n_snoc.
Qed.

(** On samples of [random.random], which are in [0, 1), the two boundary
    cases of [random_choice] are cases of the sampling rule. *)
Lemma random_choice_sampling p u :
  (0 <= u)%Q -> (u < 1)%Q ->
  random_choice p u = if Qltb u p then C else D.
Proof.
  intros H0 H1. unfold random_choice.
  destruct (Qeq_bool p 0) eqn:E0.
  - apply Qeq_bool_iff in E0.
    replace (Qltb u p) with false; [done|].
    symmetry. apply Qltb_ge. by rewrite E0.
  - destruct (Qeq_bool p 1) eqn:E1; [|done].
    apply Qeq_bool_iff in E1.
    replace (Qltb u p) with true; [done|].
    symmetry. apply Qltb_lt. by rewrite E1.
Qed.

Lemma random_choice_one p u : (p == 1)%Q -> random_choice p u = C.
Proof.
  intros H. unfold random_choice.
  destruct (Qeq_bool p 0) eqn:E0.
  - apply Qeq_bool_iff in E0. rewrite H in E0. discriminate E0.
  - apply Qeq_bool_iff in H. by rewrite H.
Qed.

Lemma random_choice_zero p u : (p == 0)%Q -> random_choice p u = D.
Proof.
  intros H. unfold random_choice. apply Qeq_bool_iff in H. by rewrite H.
Qed.

(** C4. Whatever the histories and whatever the sample, [Gambler.strategy]
    returns Cooperate when the weight looked up is 1 and Defect when it is
    0; when the lookup gives an action, that action is returned and the
    sample plays no part. *)
Theorem Gambler_strategy_boundary table ia own opp u :
  (forall w, LookerUp_strategy table ia own opp = Ok (IsFloat w) ->
             (w == 1)%Q -> Gambler_strategy table ia own opp u = Ok C) /\
  (forall w, LookerUp_strategy table ia own opp = Ok (IsFloat w) ->
             (w == 0)%Q -> Gambler_strategy table ia own opp u = Ok D) /\
  (forall a, LookerUp_strategy table ia own opp = Ok (IsAction a) ->
             Gambler_strategy table ia own opp u = Ok a).
Proof.
  unfold Gambler_strategy.
  split; [|split].
  - intros w -> Hw. simpl. by rewrite random_choice_one.
  - intros w -> Hw. simpl. by rewrite random_choice_zero.
  - by intros a ->.
Qed.

(** The three cases on the sample table, after the rounds (C, C), (C, D)
    and (D, C), with a sample of 0.9. *)
Lemma Gambler_strategy_boundary_witness :
  Gambler_strategy sample_reaction_table [] [C] [C] (9 # 10) = Ok C /\
  Gambler_strategy sample_reaction_table [] [C] [D] (9 # 10) = Ok D /\
  Gambler_strategy sample_reaction_table [] [D] [C] (9 # 10) = Ok D.
Proof.
  split; [|split].
  - apply (proj1 (Gambler_strategy_boundary sample_reaction_table
                    [] [C] [C] (9 # 10)) 1%Q); reflexivity.
  - apply (proj1 (proj2 (Gambler_strategy_boundary sample_reaction_table
                    [] [C] [D] (9 # 10))) 0%Q); reflexivity.
  - apply (proj2 (proj2 (Gambler_strategy_boundary sample_reaction_table
                    [] [D] [C] (9 # 10))) D); reflexivity.
Defined.

(** ** [Anand] *)

Lemma receive_match_attributes_ok self :
  Anand.receive_match_attributes self
  = Ok (Anand.mkState (Some [7 # 9; 0%Q; 8 # 9; 0%Q]) (Anand.history self)).
Proof. reflexivity. Qed.

(** C5. The four-vector that [receive_match_attributes] sets is
    [7/9, 0, 8/9, 0]; as the pattern of the depths (1, 1, 0) it gives the
    weight 7/9 after a round in which both players cooperated and the
    weight 8/9 after a round in which the player defected and the opponent
    cooperated. *)
Theorem anand_four_vector_lookup self ia own opp :
  exists self' table,
    Anand.receive_match_attributes self = Ok self' /\
    Anand.four_vector self' = Some [7 # 9; 0%Q; 8 # 9; 0%Q] /\
    from_pattern [7 # 9; 0%Q; 8 # 9; 0%Q] (1, 1, 0)%Z = Ok table /\
    LookerUp_strategy table ia (own ++ [C]) (opp ++ [C]) = Ok (7 # 9) /\
    LookerUp_strategy table ia (own ++ [D]) (opp ++ [C]) = Ok (8 # 9) /\
    Anand.lookup_weight self' ia (own ++ [C]) (opp ++ [C]) = Ok (7 # 9) /\
    Anand.lookup_weight self' ia (own ++ [D]) (opp ++ [C]) = Ok (8 # 9).
Proof.
  eexists _, _. split; [apply receive_match_attributes_ok|].
  split; [reflexivity|]. split; [reflexivity|].
  unfold Anand.lookup_weight. simpl.
  change (from_pattern [7 # 9; 0%Q; 8 # 9; 0%Q] (1, 1, 0)%Z)
    with (Ok (sample_table [7 # 9; 0%Q; 8 # 9; 0%Q])).
  simpl.
  rewrite !LookerUp_strategy_memory_one by reflexivity.
  repeat split; reflexivity.
Qed.

(** C10. [set_initial_four_vector] leaves the instance as it is, whatever
    vector it is given; [receive_match_attributes] sets the four-vector to
    (7/9, 0, 8/9, 0) whatever the instance held.  So after any calls the
    four-vector is the one the instance started with when
    [receive_match_attributes] was not among them, and (7/9, 0, 8/9, 0)
    when it was: no supplied vector has a part in it. *)
Theorem set_initial_four_vector_noop :
  (forall self v, Anand.set_initial_four_vector self v = self) /\
  (forall self, exists self',
      Anand.receive_match_attributes self = Ok self' /\
      Anand.four_vector self' = Some [7 # 9; 0%Q; 8 # 9; 0%Q] /\
      Anand.history self' = Anand.history self) /\
  (forall self cs, existsb Anand.is_receive cs = false ->
      Anand.run self cs = Ok self) /\
  (forall self cs, existsb Anand.is_receive cs = true ->
      Anand.run self cs
      = Ok (Anand.mkState (Some [7 # 9; 0%Q; 8 # 9; 0%Q]) (Anand.history self))).
Proof.
  split; [done|]. split; [intros self; eexists; by rewrite receive_match_attributes_ok|].
  assert (Hno : forall self cs, existsb Anand.is_receive cs = false ->
                                 Anand.run self cs = Ok self).
  { intros self cs. induction cs as [|[v|] cs IH]; simpl; [done| |done].
    intros H. by apply IH. }
  split; [exact Hno|].
  intros self cs. revert self. induction cs as [|[v|] cs IH]; intros self; simpl.
  - done.
  - apply IH.
  - intros _. destruct (existsb Anand.is_receive cs) eqn:E.
    + by rewrite IH.
    + by rewrite Hno.
Qed.

(** ** Strings *)

Lemma split_no_sep sep s : mem_char sep s = false -> split sep s = [s].
Proof.
  induction s as [|c s IH]; simpl; [done|].
  intros [Hc Hs]%orb_false_iff. rewrite Hc, IH; done.
Qed.

Lemma split_app_sep sep s1 s2 :
  mem_char sep s1 = false ->
  split sep (s1 ++ String sep s2) = s1 :: split sep s2.
Proof.
  induction s1 as [|c s1 IH]; simpl.
  - intros _. by rewrite Ascii.eqb_refl.
  - intros [Hc Hs]%orb_false_iff. rewrite Hc, IH; done.
Qed.

Lemma split_join sep l :
  l ≠ [] ->
  Forall (fun s => mem_char sep s = false) l ->
  split sep (join sep l) = l.
Proof.
  intros Hne Hl. induction Hl as [|s l Hs Hl IH]; [done|].
  destruct l as [|s' l]; simpl.
  - by apply split_no_sep.
  - rewrite split_app_sep by done. f_equal. by apply IH.
Qed.

Lemma mem_char_app c s1 s2 :
  mem_char c (s1 ++ s2) = mem_char c s1 || mem_char c s2.
Proof.
  induction s1 as [|c' s1 IH]; simpl; [done|]. by rewrite IH, orb_assoc.
Qed.

(** ** Integers *)

Lemma string_of_uint_digits d c :
  mem_char c (NilEmpty.string_of_uint d) = true ->
  (Ascii.ltb c "0" = false /\ Ascii.leb c "9" = true).
Proof.
  induction d; cbn [NilEmpty.string_of_uint mem_char]; try done;
    (intros [Hc|Hc]%orb_true_iff; [|by apply IHd]);
    apply Ascii.eqb_eq in Hc; by subst c.
Qed.

Lemma str_int_no_sep z c :
  Ascii.leb c "9" = false -> mem_char c (str_int z) = false.
Proof.
  intros Hc.
  assert (Hu : forall d, mem_char c (NilEmpty.string_of_uint d) = false).
  { intros d. destruct (mem_char c (NilEmpty.string_of_uint d)) eqn:E; [|done].
    apply string_of_uint_digits in E. destruct E as [_ E]. congruence. }
  assert (Hz : forall d, mem_char c (NilZero.string_of_uint d) = false).
  { intros d. destruct d; try apply Hu.
    cbn [NilZero.string_of_uint mem_char].
    rewrite orb_false_r. apply Ascii.eqb_neq. by intros <-. }
  unfold str_int.
  destruct (Z.to_int z); cbn [NilZero.string_of_int mem_char]; [apply Hz|].
  rewrite Hz, orb_false_r. apply Ascii.eqb_neq. by intros <-.
Qed.

Lemma int_of_str_str_int z : int_of_str (str_int z) = Ok z.
Proof.
  unfold int_of_str, str_int.
  rewrite NilZero.isi.
  - simpl. by rewrite DecimalZ.of_to.
  - destruct z; simpl; intros [=]. by eapply DecimalPos.Unsigned.to_uint_nonnil.
  - destruct z; simpl; intros [=]. by eapply DecimalPos.Unsigned.to_uint_nonnil.
Qed.

(** ** Seed actions *)

Lemma str_to_actions_actions_to_str l : str_to_actions (actions_to_str l) = Ok l.
Proof.
  unfold str_to_actions, actions_to_str.
  rewrite list_ascii_of_string_of_list_ascii.
  induction l as [|a l IH]; [done|].
  cbn [fmap list_fmap mapM_result]. rewrite IH. by destruct a.
Qed.

Lemma actions_to_str_no_sep l c :
  c ≠ "C"%char -> c ≠ "D"%char -> mem_char c (actions_to_str l) = false.
Proof.
  intros HC HD. unfold actions_to_str.
  induction l as [|a l IH]; [done|].
  cbn [fmap list_fmap string_of_list_ascii mem_char].
  change (mem_char c (string_of_list_ascii (action_letter <$> l)) = false) in IH.
  rewrite IH, orb_false_r. apply Ascii.eqb_neq. by destruct a.
Qed.

(** ** Serialization *)

Lemma mem_char_join c sep l :
  c ≠ sep ->
  Forall (fun s => mem_char c s = false) l ->
  mem_char c (join sep l) = false.
Proof.
  intros Hne Hl. induction Hl as [|s l Hs Hl IH]; [done|].
  destruct l as [|s' l]; [done|].
  change (join sep (s :: s' :: l))
    with (s ++ String sep (join sep (s' :: l)))%string.
  rewrite mem_char_app, Hs. cbn [mem_char orb].
  rewrite IH, orb_false_r. apply Ascii.eqb_neq. congruence.
Qed.

Lemma create_lookup_table_keys_nonempty plays keys :
  create_lookup_table_keys plays = Ok keys -> keys ≠ [].
Proof.
  destruct plays as [[a b] c]. intros H%create_lookup_table_keys_length Hnil.
  rewrite Hnil in H. simpl in H.
  pose proof (Nat.pow_nonzero 2 (Z.to_nat a)).
  pose proof (Nat.pow_nonzero 2 (Z.to_nat b)).
  pose proof (Nat.pow_nonzero 2 (Z.to_nat c)). nia.
Qed.

Section SerializationProofs.

Variable imp : option Q -> Plays -> option Q.
Variable str_float : Q -> string.
Variable float_of_str : string -> option Q.

Lemma serialize_parameters_form h self :
  serialize_parameters str_float h self
  = join ":" [str_int (parameters self).1.1;
              str_int (parameters self).1.2;
              str_int (parameters self).2;
              join "|" (str_float <$> deref h (pattern self));
              actions_to_str (initial_actions self)].
Proof.
  unfold serialize_parameters. by destruct (parameters self) as [[a b] c].
Qed.

Lemma floats_of_strs pat :
  Forall (float_repr_ok str_float float_of_str) pat ->
  mapM_result (fun w => of_option (float_of_str w) DeserializationError)
    (str_float <$> pat) = Ok pat.
Proof.
  induction 1 as [|v pat (Hv & _) _ IH]; [done|].
  cbn [fmap list_fmap mapM_result]. rewrite Hv. simpl.
  change (list_fmap Q string str_float pat) with (str_float <$> pat).
  by rewrite IH.
Qed.

Lemma deserialize_kwargs_serialize h self :
  deref h (pattern self) ≠ [] ->
  Forall (float_repr_ok str_float float_of_str) (deref h (pattern self)) ->
  deserialize_kwargs float_of_str (serialize_parameters str_float h self)
  = Ok (mkKwargs (parameters self) (deref h (pattern self))
          (initial_actions self) None).
Proof.
  intros Hne Hpat.
  rewrite serialize_parameters_form. unfold deserialize_kwargs.
  rewrite split_join; [|done|].
  - cbn [take mapM_result lookup list_lookup].
    rewrite !int_of_str_str_int. simpl.
    rewrite split_join.
    + rewrite floats_of_strs by done. simpl.
      rewrite str_to_actions_actions_to_str. simpl.
      by destruct (parameters self) as [[a b] c].
    + by destruct (deref h (pattern self)).
    + apply Forall_fmap. eapply Forall_impl; [exact Hpat|].
      by intros v (_ & _ & Hv).
  - repeat apply Forall_cons_2; try by apply str_int_no_sep.
    + apply mem_char_join; [done|].
      apply Forall_fmap. eapply Forall_impl; [exact Hpat|].
      by intros v (_ & Hv & _).
    + by apply actions_to_str_no_sep.
    + constructor.
Qed.

(** C3. The serialized form of an instance is its three depths, its
    weights joined by "|" and its seed actions as letters, joined by ":";
    deserializing it gives an instance with the same parameters, the same
    pattern and the same seed actions.  The conversions of the weights are
    Python's: each weight of the pattern is assumed to be read back from
    its own text, which holds no separator. *)
Theorem serialize_deserialize_roundtrip h h0 self :
  well_formed h self ->
  Forall (float_repr_ok str_float float_of_str) (deref h (pattern self)) ->
  serialize_parameters str_float h self
  = join ":" [str_int (parameters self).1.1;
              str_int (parameters self).1.2;
              str_int (parameters self).2;
              join "|" (str_float <$> deref h (pattern self));
              actions_to_str (initial_actions self)] /\
  exists h' new,
    deserialize_parameters imp float_of_str
      (serialize_parameters str_float h self) h0 = (h', Ok new) /\
    parameters new = parameters self /\
    deref h' (pattern new) = deref h (pattern self) /\
    initial_actions new = initial_actions self.
Proof.
  intros (Hl & (keys & Hk & Hlen) & Hia) Hpat.
  split; [apply serialize_parameters_form|].
  unfold deserialize_parameters, bindM, liftM.
  rewrite deserialize_kwargs_serialize; [| |done].
  - destruct (EvolvableGambler_init_ok imp (deref h (pattern self))
                (parameters self) (initial_actions self) None h0 keys
                Hk Hlen Hia) as (t & _ & Ht).
    cbn [kw_pattern kw_parameters kw_initial_actions kw_mutation_probability].
    rewrite Ht. eexists _, _. split; [reflexivity|]. simpl.
    split; [done|]. split; [apply (deref_alloc_new h0)|done].
  - intros Hnil. rewrite Hnil in Hlen.
    apply create_lookup_table_keys_nonempty in Hk. by destruct keys.
Qed.



End SerializationProofs.

(** The sample instance is written "1:1:0:0.5|0.5|0.5|0.5:C". *)
Example serialize_parameters_sample :
  serialize_parameters sample_str_float sample_heap (sample_gambler (Some 1%Q))
  = "1:1:0:0.5|0.5|0.5|0.5:C"%string.
Proof. reflexivity. Qed.

Lemma serialize_deserialize_roundtrip_witness :
  well_formed sample_heap (sample_gambler None) /\
  Forall (float_repr_ok sample_str_float sample_float_of_str)
    (deref sample_heap (pattern (sample_gambler None))) /\
  exists h' new,
    deserialize_parameters keep_mutation_probability sample_float_of_str
      (serialize_parameters sample_str_float sample_heap (sample_gambler None))
      [] = (h', Ok new) /\
    parameters new = (1, 1, 0)%Z /\
    deref h' (pattern new) = [1 # 2; 1 # 2; 1 # 2; 1 # 2] /\
    initial_actions new = [C].
Proof.
  assert (Hwf : well_formed sample_heap (sample_gambler None)).
  { unfold well_formed. simpl. split; [lia|]. split; [|lia].
    eexists. split; reflexivity. }
  assert (Hf : Forall (float_repr_ok sample_str_float sample_float_of_str)
                 (deref sample_heap (pattern (sample_gambler None)))).
  { repeat constructor. }
  split; [exact Hwf|]. split; [exact Hf|].
  exact (proj2 (serialize_deserialize_roundtrip keep_mutation_probability
                  sample_str_float sample_float_of_str sample_heap []
                  (sample_gambler None) Hwf Hf)).
Defined.



(** * Further properties *)

(** ** [mutate_pattern], index by index *)

Lemma mutate_prefix p d pat m :
  (m <= length pat)%nat ->
  (foldl (mutate_step p d) (pat, O) (seq 0 m)).2 = selected_before p d m /\
  length (foldl (mutate_step p d) (pat, O) (seq 0 m)).1 = length pat /\
  forall i x, pat !! i = Some x ->
    (foldl (mutate_step p d) (pat, O) (seq 0 m)).1 !! i
    = Some (if decide (i < m)%nat then mutated_entry p d i x else x).
Proof.
  induction m as [|m IH]; intros Hm.
  - change (seq 0 0) with (@nil nat). cbn [foldl fst snd].
    split; [done|]. split; [done|]. intros i x Hi.
    rewrite Hi. by rewrite decide_False by lia.
  - destruct IH as (Hk & Hlen & Hl); [lia|].
    rewrite seq_S, foldl_snoc. simpl.
    destruct (foldl (mutate_step p d) (pat, O) (seq 0 m)) as [l k].
    simpl in *. subst k.
    destruct (lookup_lt_is_Some_2 pat m) as [xm Hxm]; [lia|].
    pose proof (Hl m xm Hxm) as Hlm. rewrite decide_False in Hlm by lia.
    unfold mutate_step.
    destruct (Qltb (randoms d m) p) eqn:Esel.
    + rewrite Hlm. simpl. split; [lia|]. split; [by rewrite length_insert|].
      intros i x Hi. destruct (decide (i = m)) as [->|Hne].
      * rewrite list_lookup_insert_eq by lia.
        rewrite decide_True by lia. unfold mutated_entry. rewrite Esel.
        congruence.
      * rewrite list_lookup_insert_ne by done. rewrite (Hl i x Hi).
        f_equal. repeat case_decide; done || lia.
    + simpl. split; [lia|]. split; [done|].
      intros i x Hi. rewrite (Hl i x Hi). f_equal.
      destruct (decide (i = m)) as [->|Hne].
      * rewrite decide_False by lia. rewrite decide_True by lia.
        unfold mutated_entry. by rewrite Esel.
      * repeat case_decide; done || lia.
Qed.

Lemma mutate_loop_lookup p d pat i x :
  pat !! i = Some x -> mutate_loop p d pat !! i = Some (mutated_entry p d i x).
Proof.
  intros Hi. unfold mutate_loop.
  destruct (mutate_prefix p d pat (length pat)) as (_ & _ & Hl); [lia|].
  rewrite (Hl i x Hi). apply lookup_lt_Some in Hi.
  by rewrite decide_True by lia.
Qed.

(** X1. [mutate_pattern] writes to the list it is given and to nothing
    else: it returns the reference it received, the list keeps its length,
    no list is added to the store and every other list is as it was. *)
Theorem mutate_pattern_frame d h pattern p :
  exists h',
    mutate_pattern d h pattern (Some p) = Ok (h', pattern) /\
    length h' = length h /\
    length (deref h' pattern) = length (deref h pattern) /\
    forall other, other ≠ pattern -> deref h' other = deref h other.
Proof.
  eexists. split; [reflexivity|]. split; [apply length_store|]. split.
  - rewrite deref_store. case_decide as Hl; [apply mutate_loop_length|].
    unfold deref. by rewrite lookup_ge_None_2 by lia.
  - intros other Hne. by apply deref_store_ne.
Qed.

(** X2. The outcome of [mutate_pattern] at every index: a weight whose draw
    is not below the mutation probability is kept; a weight whose draw is
    below it is moved by a quarter of the next value of [random.uniform],
    the values being used in the order of the indices that are drawn, and
    then clamped to [0,1]. *)
Theorem mutate_pattern_entries d h pattern p i x :
  deref h pattern !! i = Some x ->
  exists h',
    mutate_pattern d h pattern (Some p) = Ok (h', pattern) /\
    deref h' pattern !! i
    = Some (if Qltb (randoms d i) p
            then mutate_entry x (uniforms d (selected_before p d i))
            else x).
Proof.
  intros Hi. eexists. split; [reflexivity|].
  rewrite deref_store. case_decide as Hl.
  - by apply mutate_loop_lookup.
  - unfold deref in Hi. by rewrite (lookup_ge_None_2 h pattern) in Hi by lia.
Qed.

Lemma mutate_pattern_entries_witness :
  deref sample_heap 0 !! 2%nat = Some (1 # 2) /\
  exists h',
    mutate_pattern sample_draws sample_heap 0 (Some 1%Q) = Ok (h', 0%nat) /\
    deref h' 0 !! 2%nat = Some (mutate_entry (1 # 2) (1 # 2)).
Proof.
  assert (H : deref sample_heap 0 !! 2%nat = Some (1 # 2)) by reflexivity.
  split; [exact H|].
  exact (mutate_pattern_entries sample_draws sample_heap 0 1%Q 2 (1 # 2) H).
Defined.

Lemma mutate_entry_step x u :
  in01 x -> (-1 <= u)%Q -> (u <= 1)%Q ->
  (x - (1 # 4) <= mutate_entry x u)%Q /\ (mutate_entry x u <= x + (1 # 4))%Q.
Proof.
  intros [Hx0 Hx1] Hu0 Hu1. unfold mutate_entry. cbv zeta.
  change (u / 4)%Q with (u * (1 # 4))%Q.
  destruct (Qltb (x + u * (1 # 4)) 0) eqn:E0.
  - apply Qltb_lt in E0.
    replace (Qltb 1 0) with false by reflexivity. split; lra.
  - apply Qltb_ge in E0.
    destruct (Qltb 1 (x + u * (1 # 4))) eqn:E1.
    + apply Qltb_lt in E1. split; lra.
    + apply Qltb_ge in E1. split; lra.
Qed.

(** X3. With draws in the ranges of the generators, [mutate_pattern] moves
    no weight of a pattern in [0,1] by more than 1/4. *)
Theorem mutate_pattern_step_bound d h pattern p i x :
  draws_in_range d ->
  Forall in01 (deref h pattern) ->
  deref h pattern !! i = Some x ->
  exists h' y,
    mutate_pattern d h pattern (Some p) = Ok (h', pattern) /\
    deref h' pattern !! i = Some y /\
    (x - (1 # 4) <= y)%Q /\ (y <= x + (1 # 4))%Q.
Proof.
  intros [_ Hu] H01 Hi.
  destruct (mutate_pattern_entries d h pattern p i x Hi) as (h' & Hm & Hy).
  eexists _, _. split; [exact Hm|]. split; [exact Hy|].
  assert (Hx : in01 x) by (eapply Forall_lookup_1; eauto).
  destruct (Qltb (randoms d i) p).
  - apply mutate_entry_step; [done|apply Hu..].
  - destruct Hx. split; lra.
Qed.

Lemma mutate_pattern_step_bound_witness :
  draws_in_range sample_draws /\
  Forall in01 (deref sample_heap 0) /\
  deref sample_heap 0 !! 1%nat = Some (1 # 2) /\
  exists h' y,
    mutate_pattern sample_draws sample_heap 0 (Some 1%Q) = Ok (h', 0%nat) /\
    deref h' 0 !! 1%nat = Some y /\
    ((1 # 2) - (1 # 4) <= y)%Q /\ (y <= (1 # 2) + (1 # 4))%Q.
Proof.
  assert (Hd : draws_in_range sample_draws).
  { unfold draws_in_range, Qle, Qlt. simpl. split; intros _; lia. }
  assert (H01 : Forall in01 (deref sample_heap 0)).
  { unfold deref, in01, Qle. simpl. repeat constructor; simpl; lia. }
  assert (Hi : deref sample_heap 0 !! 1%nat = Some (1 # 2)) by reflexivity.
  repeat (split; [assumption|]).
  exact (mutate_pattern_step_bound sample_draws sample_heap 0 1%Q 1 (1 # 2)
           Hd H01 Hi).
Defined.

(** ** [mutate] and the store *)

Section MutateStore.

Variable imp : option Q -> Plays -> option Q.

(** The constructor adds one list at the end of the store, or nothing. *)
Lemma EvolvableGambler_init_store pat params ia mp h :
  (EvolvableGambler_init imp pat params ia mp h).1 = h \/
  (EvolvableGambler_init imp pat params ia mp h).1 = h ++ [pat].
Proof.
  unfold EvolvableGambler_init, bindM, liftM.
  destruct (from_pattern pat params); simpl; [|by left].
  case_decide; simpl; [by right|by left].
Qed.

Lemma EvolvableGambler_init_frame pat params ia mp h l :
  (l < length h)%nat ->
  deref (EvolvableGambler_init imp pat params ia mp h).1 l = deref h l.
Proof.
  intros Hl.
  destruct (EvolvableGambler_init_store pat params ia mp h) as [-> | ->];
    [done|].
  unfold deref. by rewrite lookup_app_l.
Qed.

Lemma mutate_run_table d h self p :
  well_formed h self ->
  mutation_probability self = Some p ->
  exists table,
    from_pattern (mutate_loop p d (deref h (pattern self))) (parameters self)
    = Ok table /\
    mutate imp d self h
    = (store h (pattern self) (mutate_loop p d (deref h (pattern self)))
         ++ [mutate_loop p d (deref h (pattern self))],
       Ok (mkEvolvableGambler (parameters self) (length h)
             (choices d <$> seq 0 (Z.to_nat (max_depth (parameters self))))
             (imp (Some p) (parameters self)) table)).
Proof.
  intros (Hl & (keys & Hk & Hlen) & _) Hp.
  unfold mutate, bindM, mutate_pattern. rewrite Hp.
  rewrite deref_store, decide_True by done.
  destruct (EvolvableGambler_init_ok imp
              (mutate_loop p d (deref h (pattern self))) (parameters self)
              (choices d <$> seq 0 (Z.to_nat (max_depth (parameters self))))
              (Some p)
              (store h (pattern self) (mutate_loop p d (deref h (pattern self))))
              keys) as (t & Hf & Ht).
  - done.
  - by rewrite mutate_loop_length.
  - rewrite length_fmap, length_seq. apply max_depth_to_nat.
  - exists t. split; [done|]. rewrite Ht. by rewrite length_store.
Qed.

(** X4. On an instance that holds no mutation probability, [mutate] raises
    a TypeError at the comparison of line 105, before anything is written:
    the store is left as it was. *)
Theorem mutate_without_probability d h self :
  well_formed h self ->
  mutation_probability self = None ->
  mutate imp d self h = (h, Err TypeError).
Proof.
  intros (Hl & (keys & Hk & Hlen) & _) Hp.
  unfold mutate, bindM, mutate_pattern. rewrite Hp.
  destruct (deref h (pattern self)) eqn:E; [|done].
  apply create_lookup_table_keys_nonempty in Hk. by destruct keys.
Qed.

(** X5. [mutate] keeps instances well formed: the new instance has the
    parameters of the caller, a pattern of the size of the key space, seed
    actions that cover the largest depth and a table built from its own
    pattern; its weights are in [0,1] when the caller's were; and the
    caller, whose list was written, still has a pattern of the right
    size. *)
Theorem mutate_well_formed d h self p :
  well_formed h self ->
  mutation_probability self = Some p ->
  exists h' new,
    mutate imp d self h = (h', Ok new) /\
    well_formed h' new /\
    well_formed h' self /\
    parameters new = parameters self /\
    mutation_probability new = imp (Some p) (parameters self) /\
    from_pattern (deref h' (pattern new)) (parameters new) = Ok (_lookup new) /\
    (Forall in01 (deref h (pattern self)) -> Forall in01 (deref h' (pattern new))).
Proof.
  intros Hwf Hp.
  destruct (mutate_run_table d h self p Hwf Hp) as (t & Hf & Ht).
  destruct Hwf as (Hl & (keys & Hk & Hlen) & Hia).
  set (pat' := mutate_loop p d (deref h (pattern self))) in *.
  assert (Hnew : deref (store h (pattern self) pat' ++ [pat']) (length h) = pat').
  { unfold deref. rewrite lookup_app_r by (rewrite length_store; lia).
    by rewrite length_store, Nat.sub_diag. }
  assert (Hold : deref (store h (pattern self) pat' ++ [pat']) (pattern self) = pat').
  { unfold deref. rewrite lookup_app_l by (rewrite length_store; lia).
    fold (deref (store h (pattern self) pat') (pattern self)).
    by rewrite deref_store, decide_True. }
  eexists _, _. split; [exact Ht|]. simpl.
  split; [|split; [|split; [done|split; [done|split]]]].
  - unfold well_formed. simpl. rewrite length_app, length_store. simpl.
    split; [lia|]. split.
    + exists keys. split; [done|]. rewrite Hnew. unfold pat'.
      by rewrite mutate_loop_length.
    + rewrite length_fmap, length_seq. apply max_depth_to_nat.
  - unfold well_formed. rewrite length_app, length_store. simpl.
    split; [lia|]. split; [|done].
    exists keys. split; [done|]. rewrite Hold. unfold pat'.
    by rewrite mutate_loop_length.
  - by rewrite Hnew.
  - intros H01. rewrite Hnew. by apply mutate_loop_in01.
Qed.

(** X6. [mutate] writes to one list of the store only, the pattern of the
    instance it is called on: whether it returns or raises, every other
    list that was in the store is as it was. *)
Theorem mutate_frame d h self l :
  (l < length h)%nat ->
  l ≠ pattern self ->
  deref (mutate imp d self h).1 l = deref h l.
Proof.
  intros Hl Hne. unfold mutate, bindM, mutate_pattern.
  destruct (mutation_probability self) as [p|].
  - rewrite EvolvableGambler_init_frame by (by rewrite length_store).
    by apply deref_store_ne.
  - destruct (deref h (pattern self)); [|done].
    by rewrite EvolvableGambler_init_frame.
Qed.

(** X7. The instance that [mutate] returns has a list of its own: a later
    [mutate] of that instance, whatever its draws and its outcome, does not
    reach the pattern of the instance it came from. *)
Theorem mutate_child_independent d1 d2 h self p h1 new :
  well_formed h self ->
  mutation_probability self = Some p ->
  mutate imp d1 self h = (h1, Ok new) ->
  deref (mutate imp d2 new h1).1 (pattern self) = deref h1 (pattern self).
Proof.
  intros Hwf Hp Hm.
  destruct (mutate_run_table d1 h self p Hwf Hp) as (t & _ & Ht).
  rewrite Ht in Hm. injection Hm as <- <-.
  destruct Hwf as (Hl & _).
  apply mutate_frame; simpl.
  - rewrite length_app, length_store. lia.
  - lia.
Qed.

(** X8. [receive_vector] keeps the vector it is given, not a copy of it:
    a [mutate] of the instance afterwards writes the mutated weights into
    the caller's vector. *)
Theorem receive_vector_shares_vector d h self vector p :
  well_formed h (receive_vector h self vector).1 ->
  mutation_probability self = Some p ->
  exists h' new,
    mutate imp d (receive_vector h self vector).1 h = (h', Ok new) /\
    deref h' vector = mutate_loop p d (deref h vector).
Proof.
  intros Hwf Hp.
  assert (Hpat : pattern (receive_vector h self vector).1 = vector).
  { unfold receive_vector. simpl. by destruct (from_pattern _ _). }
  assert (Hmp : mutation_probability (receive_vector h self vector).1 = Some p).
  { unfold receive_vector. simpl. by destruct (from_pattern _ _). }
  destruct (mutate_writes_caller imp d h _ p Hwf Hmp)
    as (h' & new & Hm & _ & Hc & _).
  rewrite Hpat in Hc. eauto.
Qed.

End MutateStore.

Lemma mutate_without_probability_witness :
  well_formed sample_heap (sample_gambler None) /\
  mutation_probability (sample_gambler None) = None /\
  mutate keep_mutation_probability sample_draws (sample_gambler None) sample_heap
  = (sample_heap, Err TypeError).
Proof.
  assert (Hwf : well_formed sample_heap (sample_gambler None)).
  { unfold well_formed. simpl. split; [lia|]. split; [|lia].
    eexists. split; reflexivity. }
  split; [exact Hwf|]. split; [reflexivity|].
  exact (mutate_without_probability keep_mutation_probability sample_draws
           sample_heap (sample_gambler None) Hwf eq_refl).
Defined.

Lemma mutate_well_formed_witness :
  well_formed sample_heap (sample_gambler (Some 1%Q)) /\
  mutation_probability (sample_gambler (Some 1%Q)) = Some 1%Q /\
  exists h' new,
    mutate keep_mutation_probability sample_draws (sample_gambler (Some 1%Q))
      sample_heap = (h', Ok new) /\
    well_formed h' new /\
    well_formed h' (sample_gambler (Some 1%Q)).
Proof.
  assert (Hwf : well_formed sample_heap (sample_gambler (Some 1%Q))).
  { unfold well_formed. simpl. split; [lia|]. split; [|lia].
    eexists. split; reflexivity. }
  split; [exact Hwf|]. split; [reflexivity|].
  destruct (mutate_well_formed keep_mutation_probability sample_draws
              sample_heap (sample_gambler (Some 1%Q)) 1%Q Hwf eq_refl)
    as (h' & new & Hm & Hn & Hs & _).
  exists h', new. split; [exact Hm|]. split; [exact Hn|exact Hs].
Defined.

Lemma mutate_frame_witness :
  (1 < length sample_heap2)%nat /\
  1%nat ≠ pattern (sample_gambler (Some 1%Q)) /\
  deref (mutate keep_mutation_probability sample_draws
           (sample_gambler (Some 1%Q)) sample_heap2).1 1
  = deref sample_heap2 1.
Proof.
  assert (Hl : (1 < length sample_heap2)%nat) by (simpl; lia).
  assert (Hne : 1%nat ≠ pattern (sample_gambler (Some 1%Q))) by (simpl; lia).
  split; [exact Hl|]. split; [exact Hne|].
  exact (mutate_frame keep_mutation_probability sample_draws sample_heap2
           (sample_gambler (Some 1%Q)) 1 Hl Hne).
Defined.

Lemma mutate_child_independent_witness :
  well_formed sample_heap (sample_gambler (Some 1%Q)) /\
  exists h1 new,
    mutate keep_mutation_probability sample_draws (sample_gambler (Some 1%Q))
      sample_heap = (h1, Ok new) /\
    deref (mutate keep_mutation_probability sample_draws new h1).1
      (pattern (sample_gambler (Some 1%Q)))
    = deref h1 (pattern (sample_gambler (Some 1%Q))).
Proof.
  assert (Hwf : well_formed sample_heap (sample_gambler (Some 1%Q))).
  { unfold well_formed. simpl. split; [lia|]. split; [|lia].
    eexists. split; reflexivity. }
  split; [exact Hwf|].
  destruct (mutate_run_table keep_mutation_probability sample_draws
              sample_heap (sample_gambler (Some 1%Q)) 1%Q Hwf eq_refl)
    as (t & _ & Ht).
  eexists _, _. split; [exact Ht|].
  exact (mutate_child_independent keep_mutation_probability sample_draws
           sample_draws sample_heap (sample_gambler (Some 1%Q)) 1%Q _ _
           Hwf eq_refl Ht).
Defined.

Lemma receive_vector_shares_vector_witness :
  well_formed sample_heap2
    (receive_vector sample_heap2 (sample_gambler (Some 1%Q)) 1).1 /\
  mutation_probability (sample_gambler (Some 1%Q)) = Some 1%Q /\
  exists h' new,
    mutate keep_mutation_probability sample_draws
      (receive_vector sample_heap2 (sample_gambler (Some 1%Q)) 1).1 sample_heap2
    = (h', Ok new) /\
    deref h' 1 = mutate_loop 1 sample_draws (deref sample_heap2 1).
Proof.
  assert (Hwf : well_formed sample_heap2
            (receive_vector sample_heap2 (sample_gambler (Some 1%Q)) 1).1).
  { unfold well_formed. simpl. split; [lia|]. split; [|lia].
    eexists. split; reflexivity. }
  split; [exact Hwf|]. split; [reflexivity|].
  exact (receive_vector_shares_vector keep_mutation_probability sample_draws
           sample_heap2 (sample_gambler (Some 1%Q)) 1 1%Q Hwf eq_refl).
Defined.

(** ** [crossover] with a second parent *)

Section CrossoverParents.

Variable imp : option Q -> Plays -> option Q.

Lemma deref_app_new (h : list (list Q)) v : deref (h ++ [v]) (length h) = v.
Proof. apply (deref_alloc_new h). Qed.

Lemma crossover_run d h self other :
  well_formed h self ->
  length (deref h (pattern other)) = length (deref h (pattern self)) ->
  exists table,
    from_pattern (take (randint d) (deref h (pattern self))
                  ++ drop (randint d) (deref h (pattern other)))
      (parameters self) = Ok table /\
    crossover imp d self other h
    = (h ++ [take (randint d) (deref h (pattern self))
             ++ drop (randint d) (deref h (pattern other))],
       Ok (mkEvolvableGambler (parameters self) (length h)
             (initial_actions self)
             (imp (mutation_probability self) (parameters self)) table)).
Proof.
  intros (Hl & (keys & Hk & Hlen) & Hia) Heq. unfold crossover.
  apply EvolvableGambler_init_ok with (keys := keys); [done| |done].
  rewrite length_app, length_take, length_drop. lia.
Qed.

Lemma crossover_lookup {A} (l1 l2 : list A) cp i :
  length l2 = length l1 ->
  (take cp l1 ++ drop cp l2) !! i
  = if decide (i < cp)%nat then l1 !! i else l2 !! i.
Proof.
  intros Heq. destruct (decide (cp <= length l1)%nat) as [Hcp|Hcp].
  - case_decide as Hi.
    + rewrite lookup_app_l by (rewrite length_take; lia).
      by apply lookup_take_lt.
    + rewrite lookup_app_r by (rewrite length_take; lia).
      rewrite length_take, lookup_drop. f_equal. lia.
  - rewrite take_ge, drop_ge, app_nil_r by lia.
    case_decide as Hi; [done|].
    rewrite !lookup_ge_None_2; [done|lia..].
Qed.

(** X9. The offspring of [crossover] holds, at every index below the split
    point, the weight of the instance the method is called on, and at every
    index from the split point on, the weight of the other parent. *)
Theorem crossover_entries d h self other :
  well_formed h self ->
  length (deref h (pattern other)) = length (deref h (pattern self)) ->
  exists h' offspring,
    crossover imp d self other h = (h', Ok offspring) /\
    length (deref h' (pattern offspring)) = length (deref h (pattern self)) /\
    forall i,
      deref h' (pattern offspring) !! i
      = if decide (i < randint d)%nat
        then deref h (pattern self) !! i
        else deref h (pattern other) !! i.
Proof.
  intros Hwf Heq.
  destruct (crossover_run d h self other Hwf Heq) as (t & _ & Ht).
  eexists _, _. split; [exact Ht|]. simpl.
  rewrite deref_app_new. split.
  - rewrite length_app, length_take, length_drop. lia.
  - intros i. by apply crossover_lookup.
Qed.

(** X10. [crossover] writes to no list of the store, whether it returns or
    raises: the patterns of both parents are as they were. *)
Theorem crossover_frame d h self other l :
  (l < length h)%nat ->
  deref (crossover imp d self other h).1 l = deref h l.
Proof.
  intros Hl. unfold crossover. by apply EvolvableGambler_init_frame.
Qed.

(** X11. At the two ends of the range of the split point: with the split
    point 0 the offspring has the pattern of the other parent, with the
    split point at the length of the pattern it has the pattern of the
    instance the method is called on. *)
Theorem crossover_end_points d h self other :
  well_formed h self ->
  length (deref h (pattern other)) = length (deref h (pattern self)) ->
  exists h' offspring,
    crossover imp d self other h = (h', Ok offspring) /\
    (randint d = 0%nat ->
     deref h' (pattern offspring) = deref h (pattern other)) /\
    (randint d = length (deref h (pattern self)) ->
     deref h' (pattern offspring) = deref h (pattern self)).
Proof.
  intros Hwf Heq.
  destruct (crossover_run d h self other Hwf Heq) as (t & _ & Ht).
  eexists _, _. split; [exact Ht|]. simpl.
  rewrite deref_app_new. split; intros ->.
  - by rewrite take_0, drop_0.
  - rewrite take_ge, drop_ge by lia. by rewrite app_nil_r.
Qed.

(** X12. [crossover] keeps instances well formed: the offspring has the
    parameters and the seed actions of the instance the method is called
    on, a list of its own of the size of the key space and a table built
    from it, and weights in [0,1] when both parents have. *)
Theorem crossover_well_formed d h self other :
  well_formed h self ->
  length (deref h (pattern other)) = length (deref h (pattern self)) ->
  exists h' offspring,
    crossover imp d self other h = (h', Ok offspring) /\
    well_formed h' offspring /\
    pattern offspring = length h /\
    parameters offspring = parameters self /\
    initial_actions offspring = initial_actions self /\
    mutation_probability offspring
    = imp (mutation_probability self) (parameters self) /\
    from_pattern (deref h' (pattern offspring)) (parameters offspring)
    = Ok (_lookup offspring) /\
    (Forall in01 (deref h (pattern self)) ->
     Forall in01 (deref h (pattern other)) ->
     Forall in01 (deref h' (pattern offspring))).
Proof.
  intros Hwf Heq.
  destruct (crossover_run d h self other Hwf Heq) as (t & Hf & Ht).
  destruct Hwf as (Hl & (keys & Hk & Hlen) & Hia).
  eexists _, _. split; [exact Ht|]. simpl.
  rewrite deref_app_new.
  split; [|repeat (split; [done|])].
  - unfold well_formed. simpl. rewrite length_app. simpl.
    split; [lia|]. split; [|done].
    exists keys. split; [done|]. rewrite deref_app_new.
    rewrite length_app, length_take, length_drop. lia.
  - intros H1 H2. apply Forall_app. split.
    + by apply Forall_take.
    + by apply Forall_drop.
Qed.

End CrossoverParents.

Lemma sample_other_parents :
  well_formed sample_heap2 (sample_gambler None) /\
  length (deref sample_heap2 (pattern sample_other))
  = length (deref sample_heap2 (pattern (sample_gambler None))).
Proof.
  split; [|reflexivity].
  unfold well_formed. simpl. split; [lia|]. split; [|lia].
  eexists. split; reflexivity.
Defined.

Lemma crossover_entries_witness :
  well_formed sample_heap2 (sample_gambler None) /\
  length (deref sample_heap2 (pattern sample_other))
  = length (deref sample_heap2 (pattern (sample_gambler None))) /\
  exists h' offspring,
    crossover keep_mutation_probability sample_draws (sample_gambler None)
      sample_other sample_heap2 = (h', Ok offspring) /\
    deref h' (pattern offspring) !! 1%nat = Some (1 # 2) /\
    deref h' (pattern offspring) !! 2%nat = Some 1%Q.
Proof.
  destruct sample_other_parents as [Hwf Heq].
  split; [exact Hwf|]. split; [exact Heq|].
  destruct (crossover_entries keep_mutation_probability sample_draws
              sample_heap2 (sample_gambler None) sample_other Hwf Heq)
    as (h' & off & Hc & _ & Hi).
  exists h', off. split; [exact Hc|].
  split; [exact (Hi 1%nat)|exact (Hi 2%nat)].
Defined.

Lemma crossover_frame_witness :
  (1 < length sample_heap2)%nat /\
  deref (crossover keep_mutation_probability sample_draws (sample_gambler None)
           sample_other sample_heap2).1 1
  = deref sample_heap2 1.
Proof.
  assert (Hl : (1 < length sample_heap2)%nat) by (simpl; lia).
  split; [exact Hl|].
  exact (crossover_frame keep_mutation_probability sample_draws sample_heap2
           (sample_gambler None) sample_other 1 Hl).
Defined.

Lemma crossover_end_points_witness :
  well_formed sample_heap2 (sample_gambler None) /\
  length (deref sample_heap2 (pattern sample_other))
  = length (deref sample_heap2 (pattern (sample_gambler None))) /\
  exists h' offspring,
    crossover keep_mutation_probability (mkDraws (fun _ => 0%Q) (fun _ => 0%Q)
                                           (fun _ => C) 0)
      (sample_gambler None) sample_other sample_heap2 = (h', Ok offspring) /\
    deref h' (pattern offspring) = sample_other_pattern.
Proof.
  destruct sample_other_parents as [Hwf Heq].
  split; [exact Hwf|]. split; [exact Heq|].
  destruct (crossover_end_points keep_mutation_probability
              (mkDraws (fun _ => 0%Q) (fun _ => 0%Q) (fun _ => C) 0)
              sample_heap2 (sample_gambler None) sample_other Hwf Heq)
    as (h' & off & Hc & H0 & _).
  exists h', off. split; [exact Hc|]. exact (H0 eq_refl).
Defined.

Lemma crossover_well_formed_witness :
  well_formed sample_heap2 (sample_gambler None) /\
  length (deref sample_heap2 (pattern sample_other))
  = length (deref sample_heap2 (pattern (sample_gambler None))) /\
  exists h' offspring,
    crossover keep_mutation_probability sample_draws (sample_gambler None)
      sample_other sample_heap2 = (h', Ok offspring) /\
    well_formed h' offspring.
Proof.
  destruct sample_other_parents as [Hwf Heq].
  split; [exact Hwf|]. split; [exact Heq|].
  destruct (crossover_well_formed keep_mutation_probability sample_draws
              sample_heap2 (sample_gambler None) sample_other Hwf Heq)
    as (h' & off & Hc & Hw & _).
  exists h', off. split; [exact Hc|exact Hw].
Defined.

(** ** [create_vector_bounds] *)

Lemma Forall2_replicate_lower (l : list Q) :
  Forall2 Qle (replicate (length l) 0%Q) l <-> Forall (fun x => (0 <= x)%Q) l.
Proof.
  induction l as [|x l IH]; simpl.
  - split; constructor.
  - rewrite Forall2_cons, Forall_cons, IH. done.
Qed.

Lemma Forall2_replicate_upper (l : list Q) :
  Forall2 Qle l (replicate (length l) 1%Q) <-> Forall (fun x => (x <= 1)%Q) l.
Proof.
  induction l as [|x l IH]; simpl.
  - split; constructor.
  - rewrite Forall2_cons, Forall_cons, IH. done.
Qed.

(** X13. The two bounds of [create_vector_bounds] have the length of the
    pattern, and the pattern lies between them, entry by entry, exactly
    when all its weights are in [0,1]. *)
Theorem create_vector_bounds_spec h self :
  length (create_vector_bounds h self).1 = length (deref h (pattern self)) /\
  length (create_vector_bounds h self).2 = length (deref h (pattern self)) /\
  (Forall2 Qle (create_vector_bounds h self).1 (deref h (pattern self)) /\
   Forall2 Qle (deref h (pattern self)) (create_vector_bounds h self).2
   <-> Forall in01 (deref h (pattern self))).
Proof.
  unfold create_vector_bounds. simpl. rewrite !length_replicate.
  split; [done|]. split; [done|].
  rewrite Forall2_replicate_lower, Forall2_replicate_upper.
  unfold in01. rewrite Forall_and. done.
Qed.

(** X14. A pattern that is within the bounds of [create_vector_bounds]
    stays within them through [mutate_pattern], and the bounds themselves
    are the same after the mutation. *)
Theorem create_vector_bounds_mutation d h self p :
  Forall2 Qle (create_vector_bounds h self).1 (deref h (pattern self)) ->
  Forall2 Qle (deref h (pattern self)) (create_vector_bounds h self).2 ->
  exists h',
    mutate_pattern d h (pattern self) (Some p) = Ok (h', pattern self) /\
    create_vector_bounds h' self = create_vector_bounds h self /\
    Forall2 Qle (create_vector_bounds h' self).1 (deref h' (pattern self)) /\
    Forall2 Qle (deref h' (pattern self)) (create_vector_bounds h' self).2.
Proof.
  intros Hlb Hub.
  assert (H01 : Forall in01 (deref h (pattern self)))
    by (by apply create_vector_bounds_spec).
  eexists. split; [reflexivity|].
  assert (Hlen : length (deref (store h (pattern self)
                                  (mutate_loop p d (deref h (pattern self))))
                           (pattern self))
                 = length (deref h (pattern self))).
  { rewrite deref_store. case_decide as Hl; [apply mutate_loop_length|].
    unfold deref. by rewrite lookup_ge_None_2 by lia. }
  split; [unfold create_vector_bounds; by rewrite Hlen|].
  apply create_vector_bounds_spec.
  rewrite deref_store. case_decide; [|constructor].
  by apply mutate_loop_in01.
Qed.

Lemma create_vector_bounds_mutation_witness :
  Forall2 Qle (create_vector_bounds sample_heap (sample_gambler None)).1
    (deref sample_heap (pattern (sample_gambler None))) /\
  Forall2 Qle (deref sample_heap (pattern (sample_gambler None)))
    (create_vector_bounds sample_heap (sample_gambler None)).2 /\
  exists h',
    mutate_pattern sample_draws sample_heap (pattern (sample_gambler None))
      (Some 1%Q) = Ok (h', pattern (sample_gambler None)) /\
    create_vector_bounds h' (sample_gambler None)
    = create_vector_bounds sample_heap (sample_gambler None).
Proof.
  assert (Hlb : Forall2 Qle (create_vector_bounds sample_heap (sample_gambler None)).1
                  (deref sample_heap (pattern (sample_gambler None)))).
  { unfold Qle. simpl. repeat constructor; simpl; lia. }
  assert (Hub : Forall2 Qle (deref sample_heap (pattern (sample_gambler None)))
                  (create_vector_bounds sample_heap (sample_gambler None)).2).
  { unfold Qle. simpl. repeat constructor; simpl; lia. }
  split; [exact Hlb|]. split; [exact Hub|].
  destruct (create_vector_bounds_mutation sample_draws sample_heap
              (sample_gambler None) 1%Q Hlb Hub) as (h' & Hm & Hb & _).
  exists h'. split; [exact Hm|exact Hb].
Defined.

(** ** [random_params] *)

Lemma dict_list_to_map {V} (l : list (list Action * list Action * list Action * V)) :
  NoDup l.*1 -> dict l = list_to_map l.
Proof.
  induction l as [|[k v] l IH] using rev_ind; [done|].
  rewrite fmap_app, NoDup_app. simpl. intros (Hl & Hk & _).
  unfold dict in *. rewrite foldl_snoc, IH by done. simpl.
  rewrite list_to_map_snoc; [done|].
  intros Hin. apply (Hk k Hin). by apply list_elem_of_singleton.
Qed.

(** X15. [random_params] gives one weight per key of the key space, in the
    order of the draws of [random.random], and a table that maps each key
    to the weight at its position; the table is the one [from_pattern]
    builds from the pattern, and the weights are in [0,1] when the draws
    are in [0,1). *)
Theorem random_params_spec random plays keys :
  create_lookup_table_keys plays = Ok keys ->
  exists pat table,
    random_params random plays = Ok (pat, table) /\
    length pat = length keys /\
    (forall i, (i < length keys)%nat -> pat !! i = Some (random i)) /\
    from_pattern pat plays = Ok table /\
    (forall i k, keys !! i = Some k -> get table k = Ok (random i)) /\
    ((forall i, (0 <= random i)%Q /\ (random i < 1)%Q) -> Forall in01 pat).
Proof.
  intros Hk. unfold random_params. rewrite Hk. simpl.
  eexists _, _. split; [reflexivity|].
  assert (Hlen : length (random <$> seq 0 (length keys)) = length keys)
    by (by rewrite length_fmap, length_seq).
  assert (Hi : forall i, (i < length keys)%nat ->
                 (random <$> seq 0 (length keys)) !! i = Some (random i)).
  { intros i Hlt. by rewrite list_lookup_fmap, lookup_seq_lt. }
  assert (Hf : from_pattern (random <$> seq 0 (length keys)) plays
               = Ok (mkLookupTable (dict (zip keys (random <$> seq 0 (length keys))))
                       (Z.to_nat plays.1.1) (Z.to_nat plays.1.2)
                       (Z.to_nat plays.2))).
  { unfold from_pattern. rewrite Hk. simpl. rewrite decide_True by done.
    rewrite dict_list_to_map; [done|].
    rewrite fst_zip by lia. by eapply create_lookup_table_keys_NoDup. }
  split; [done|]. split; [done|]. split; [done|]. split.
  - intros i k Hkey. eapply from_pattern_get; [exact Hk|exact Hf|exact Hkey|].
    apply Hi. by eapply lookup_lt_Some.
  - intros Hr. apply Forall_fmap, Forall_forall. intros i _. simpl.
    destruct (Hr i) as [H0 H1]. split; [done|]. by apply Qlt_le_weak.
Qed.

Lemma random_params_spec_witness :
  create_lookup_table_keys (1, 1, 0)%Z
  = Ok [([C], [C], []); ([C], [D], []); ([D], [C], []); ([D], [D], [])] /\
  exists pat table,
    random_params (fun _ => 1 # 2) (1, 1, 0)%Z = Ok (pat, table) /\
    length pat = 4%nat /\
    get table ([D], [C], []) = Ok (1 # 2).
Proof.
  assert (Hk : create_lookup_table_keys (1, 1, 0)%Z
    = Ok [([C], [C], []); ([C], [D], []); ([D], [C], []); ([D], [D], [])])
    by reflexivity.
  split; [exact Hk|].
  destruct (random_params_spec (fun _ => 1 # 2) (1, 1, 0)%Z _ Hk)
    as (pat & table & Hr & Hlen & _ & _ & Hg & _).
  exists pat, table. split; [exact Hr|]. split; [exact Hlen|].
  exact (Hg 2%nat ([D], [C], []) eq_refl).
Defined.

(** ** Serialized strings with other numbers of fields *)

Lemma split_nonempty sep s : split sep s ≠ [].
Proof.
  destruct s as [|c s]; simpl; [done|].
  destruct (Ascii.eqb c sep); [done|]. by destruct (split sep s).
Qed.

Lemma split_app sep s1 s2 :
  split sep (s1 ++ String sep s2) = split sep s1 ++ split sep s2.
Proof.
  induction s1 as [|c s1 IH]; simpl.
  - by rewrite Ascii.eqb_refl.
  - destruct (Ascii.eqb c sep); [by rewrite IH|].
    rewrite IH. pose proof (split_nonempty sep s1).
    by destruct (split sep s1).
Qed.

Lemma mapM_result_Err {A B} (f : A -> result B) (l : list A) e e0 :
  (forall x e', f x = Err e' -> e' = e0) ->
  mapM_result f l = Err e -> e = e0.
Proof.
  intros Hf. induction l as [|x l IH]; simpl; [done|].
  destruct (f x) eqn:Ex; simpl; [|intros [= <-]; by eapply Hf].
  destruct (mapM_result f l); simpl; [done|].
  intros [= <-]. by apply IH.
Qed.

Section SerializedFields.

Variable imp : option Q -> Plays -> option Q.
Variable str_float : Q -> string.
Variable float_of_str : string -> option Q.

(** Reading the fields never raises anything but a DeserializationError. *)
Lemma deserialize_kwargs_Err s e :
  deserialize_kwargs float_of_str s = Err e -> e = DeserializationError.
Proof.
  unfold deserialize_kwargs.
  destruct (mapM_result int_of_str _) as [ints|e1] eqn:E1; simpl.
  2:{ intros [= <-]. eapply mapM_result_Err; [|exact E1].
      intros x e'. unfold int_of_str.
      destruct (Z.of_int <$> NilZero.int_of_string x); simpl; congruence. }
  destruct (split ":" s !! 3%nat) as [s3|]; simpl; [|congruence].
  destruct (mapM_result _ (split "|" s3)) as [pat|e2] eqn:E2; simpl.
  2:{ intros [= <-]. eapply mapM_result_Err; [|exact E2].
      intros x e'. simpl. destruct (float_of_str x); simpl; congruence. }
  destruct (split ":" s !! 4%nat) as [s4|]; simpl; [|congruence].
  destruct (str_to_actions s4) as [ia|e3] eqn:E3; simpl.
  2:{ intros [= <-]. eapply mapM_result_Err; [|exact E3].
      intros x e'. unfold action_of_letter.
      repeat destruct (Ascii.eqb _ _); congruence. }
  destruct ints as [|a [|b [|c [|]]]]; congruence.
Qed.

Lemma deserialize_kwargs_Ok s kw :
  deserialize_kwargs float_of_str s = Ok kw ->
  (5 <= length (split ":" s))%nat.
Proof.
  unfold deserialize_kwargs.
  destruct (mapM_result int_of_str _); simpl; [|done].
  destruct (split ":" s !! 3%nat); simpl; [|done].
  destruct (mapM_result _ (split "|" _)); simpl; [|done].
  destruct (split ":" s !! 4%nat) eqn:E4; simpl; [|done].
  intros _. apply lookup_lt_Some in E4. lia.
Qed.

(** X16. [deserialize_parameters] reads the first five fields of the string
    and nothing after them: a string of five fields or more gives the same
    outcome with any further field added at its end. *)
Theorem deserialize_ignores_extra_fields s extra h :
  (5 <= length (split ":" s))%nat ->
  deserialize_parameters imp float_of_str (s ++ String ":" extra) h
  = deserialize_parameters imp float_of_str s h.
Proof.
  intros Hlen. unfold deserialize_parameters, bindM, liftM.
  replace (deserialize_kwargs float_of_str (s ++ String ":" extra))
    with (deserialize_kwargs float_of_str s); [done|].
  unfold deserialize_kwargs. rewrite split_app.
  rewrite take_app_le by lia.
  rewrite !(lookup_app_l (split ":" s)) by lia. done.
Qed.

(** X17. A string of fewer than five fields is refused by
    [deserialize_parameters] with a DeserializationError, and no instance
    and no list is created. *)
Theorem deserialize_too_few_fields s h :
  (length (split ":" s) < 5)%nat ->
  deserialize_parameters imp float_of_str s h = (h, Err DeserializationError).
Proof.
  intros Hlen. unfold deserialize_parameters, bindM, liftM.
  destruct (deserialize_kwargs float_of_str s) as [kw|e] eqn:E.
  - apply deserialize_kwargs_Ok in E. lia.
  - apply deserialize_kwargs_Err in E. by subst e.
Qed.

(** X18. The serialized form determines the instance up to its mutation
    probability: two well-formed instances with the same serialized string
    have the same parameters, the same pattern and the same seed actions.
    The conversions of the weights are Python's, assumed as for the round
    trip. *)
Theorem serialize_parameters_inj h1 h2 self1 self2 :
  well_formed h1 self1 ->
  well_formed h2 self2 ->
  Forall (float_repr_ok str_float float_of_str) (deref h1 (pattern self1)) ->
  Forall (float_repr_ok str_float float_of_str) (deref h2 (pattern self2)) ->
  serialize_parameters str_float h1 self1 = serialize_parameters str_float h2 self2 ->
  parameters self1 = parameters self2 /\
  deref h1 (pattern self1) = deref h2 (pattern self2) /\
  initial_actions self1 = initial_actions self2.
Proof.
  intros (_ & (keys1 & Hk1 & Hlen1) & _) (_ & (keys2 & Hk2 & Hlen2) & _)
    Hf1 Hf2 Heq.
  assert (Hne1 : deref h1 (pattern self1) ≠ []).
  { intros Hnil. rewrite Hnil in Hlen1.
    apply create_lookup_table_keys_nonempty in Hk1. by destruct keys1. }
  assert (Hne2 : deref h2 (pattern self2) ≠ []).
  { intros Hnil. rewrite Hnil in Hlen2.
    apply create_lookup_table_keys_nonempty in Hk2. by destruct keys2. }
  pose proof (deserialize_kwargs_serialize str_float float_of_str h1 self1
                Hne1 Hf1) as H1.
  pose proof (deserialize_kwargs_serialize str_float float_of_str h2 self2
                Hne2 Hf2) as H2.
  rewrite Heq, H2 in H1. by injection H1 as -> -> ->.
Qed.

End SerializedFields.

Lemma deserialize_ignores_extra_fields_witness :
  (5 <= length (split ":" "1:1:0:0.5|0.5|0.5|0.5:C"))%nat /\
  deserialize_parameters keep_mutation_probability sample_float_of_str
    ("1:1:0:0.5|0.5|0.5|0.5:C" ++ String ":" "0.25") []
  = deserialize_parameters keep_mutation_probability sample_float_of_str
      "1:1:0:0.5|0.5|0.5|0.5:C" [].
Proof.
  assert (H : (5 <= length (split ":" "1:1:0:0.5|0.5|0.5|0.5:C"))%nat)
    by (simpl; lia).
  split; [exact H|].
  exact (deserialize_ignores_extra_fields keep_mutation_probability
           sample_float_of_str "1:1:0:0.5|0.5|0.5|0.5:C" "0.25" [] H).
Defined.

Lemma deserialize_too_few_fields_witness :
  (length (split ":" "1:1:0:0.5|0.5|0.5|0.5") < 5)%nat /\
  deserialize_parameters keep_mutation_probability sample_float_of_str
    "1:1:0:0.5|0.5|0.5|0.5" []
  = ([], Err DeserializationError).
Proof.
  assert (H : (length (split ":" "1:1:0:0.5|0.5|0.5|0.5") < 5)%nat)
    by (simpl; lia).
  split; [exact H|].
  exact (deserialize_too_few_fields keep_mutation_probability
           sample_float_of_str "1:1:0:0.5|0.5|0.5|0.5" [] H).
Defined.

Lemma serialize_parameters_inj_witness :
  well_formed sample_heap (sample_gambler None) /\
  well_formed sample_heap (sample_gambler (Some 1%Q)) /\
  serialize_parameters sample_str_float sample_heap (sample_gambler None)
  = serialize_parameters sample_str_float sample_heap (sample_gambler (Some 1%Q)) /\
  parameters (sample_gambler None) = parameters (sample_gambler (Some 1%Q)) /\
  deref sample_heap (pattern (sample_gambler None))
  = deref sample_heap (pattern (sample_gambler (Some 1%Q))) /\
  initial_actions (sample_gambler None)
  = initial_actions (sample_gambler (Some 1%Q)).
Proof.
  assert (Hwf : forall mp, well_formed sample_heap (sample_gambler mp)).
  { intros mp. unfold well_formed. simpl. split; [lia|]. split; [|lia].
    eexists. split; reflexivity. }
  assert (Hf : forall mp, Forall (float_repr_ok sample_str_float sample_float_of_str)
                 (deref sample_heap (pattern (sample_gambler mp)))).
  { intros mp. repeat constructor. }
  split; [apply Hwf|]. split; [apply Hwf|]. split; [reflexivity|].
  exact (serialize_parameters_inj sample_str_float sample_float_of_str
           sample_heap sample_heap (sample_gambler None)
           (sample_gambler (Some 1%Q)) (Hwf None) (Hwf (Some 1%Q))
           (Hf None) (Hf (Some 1%Q)) eq_refl).
Defined.

(** ** The tables after [mutate] *)

Section MutateTables.

Variable imp : option Q -> Plays -> option Q.

(** X19. After [mutate], the table of the new instance holds the mutated
    weight at every key, while the table of the instance the method was
    called on still holds the weight from before the call, although its
    pattern now holds the mutated one: [mutate] does not rebuild the table
    of the caller. *)
Theorem mutate_tables d h self p keys i k x :
  well_formed h self ->
  mutation_probability self = Some p ->
  from_pattern (deref h (pattern self)) (parameters self) = Ok (_lookup self) ->
  create_lookup_table_keys (parameters self) = Ok keys ->
  keys !! i = Some k ->
  deref h (pattern self) !! i = Some x ->
  exists h' new,
    mutate imp d self h = (h', Ok new) /\
    get (_lookup new) k = Ok (mutated_entry p d i x) /\
    deref h' (pattern self) !! i = Some (mutated_entry p d i x) /\
    get (_lookup self) k = Ok x.
Proof.
  intros Hwf Hp Hf Hk Hi Hx.
  destruct (mutate_run_table imp d h self p Hwf Hp) as (t & Ht & Hm).
  destruct (mutate_writes_caller imp d h self p Hwf Hp)
    as (h' & new & Hm' & _ & Hc & _).
  rewrite Hm in Hm'. injection Hm' as <- <-.
  eexists _, _. split; [exact Hm|]. simpl. split; [|split].
  - eapply from_pattern_get; [exact Hk|exact Ht|exact Hi|].
    by apply mutate_loop_lookup.
  - rewrite Hc. by apply mutate_loop_lookup.
  - by eapply from_pattern_get.
Qed.

End MutateTables.

Lemma mutate_tables_witness :
  well_formed sample_heap (sample_gambler (Some 1%Q)) /\
  from_pattern (deref sample_heap (pattern (sample_gambler (Some 1%Q))))
    (parameters (sample_gambler (Some 1%Q)))
  = Ok (_lookup (sample_gambler (Some 1%Q))) /\
  exists h' new,
    mutate keep_mutation_probability sample_draws (sample_gambler (Some 1%Q))
      sample_heap = (h', Ok new) /\
    get (_lookup new) ([D], [C], [])
    = Ok (mutated_entry 1 sample_draws 2 (1 # 2)) /\
    deref h' (pattern (sample_gambler (Some 1%Q))) !! 2%nat
    = Some (mutated_entry 1 sample_draws 2 (1 # 2)) /\
    get (_lookup (sample_gambler (Some 1%Q))) ([D], [C], []) = Ok (1 # 2).
Proof.
  assert (Hwf : well_formed sample_heap (sample_gambler (Some 1%Q))).
  { unfold well_formed. simpl. split; [lia|]. split; [|lia].
    eexists. split; reflexivity. }
  assert (Hf : from_pattern (deref sample_heap (pattern (sample_gambler (Some 1%Q))))
                 (parameters (sample_gambler (Some 1%Q)))
               = Ok (_lookup (sample_gambler (Some 1%Q)))) by reflexivity.
  split; [exact Hwf|]. split; [exact Hf|].
  exact (mutate_tables keep_mutation_probability sample_draws sample_heap
           (sample_gambler (Some 1%Q)) 1%Q
           [([C], [C], []); ([C], [D], []); ([D], [C], []); ([D], [D], [])]
           2 ([D], [C], []) (1 # 2) Hwf eq_refl Hf eq_refl eq_refl eq_refl).
Defined.
